(** * Hausdorff distance of the JIT activity notebook (04_jit/04_actividad.ipynb)

    The notebook defines [metric_python], [inf_dist_python] and
    [hausdorff_python] over NumPy arrays, and the same three functions again
    under [numba.jit] decorators.  This file embeds them in the idealized
    real-number model that the specification adopts: a float64 is a real
    number, or the sentinel [np.inf]; arithmetic is exact.

    The first part is a value-level model (arrays are lists).  The second
    part is a store-level model in which arrays are views into buffers, so
    that the in-place update [ret *= ret] and the row views [X[i]] are
    visible; it is related to the first by a refinement lemma.  The third
    part repeats the functions on IEEE binary64 numbers, where they can be
    run and where NumPy's pairwise sum and numba's sequential sum are told
    apart. *)

From Stdlib Require Import Floats.
From Stdlib Require Import Reals Lra Lia List ListSet Relations Bool Arith.
Import ListNotations.

Local Open Scope R_scope.

(** ** Python exceptions and the error monad *)

(** The two exceptions the NumPy operations of the notebook can raise:
    [ValueError] ("operands could not be broadcast together") and
    [IndexError] (row index out of bounds). *)
Inductive exn : Type :=
| ValueError
| IndexError.

Inductive result (A : Type) : Type :=
| Ok (a : A)
| Raise (e : exn).

Arguments Ok {A} a.
Arguments Raise {A} e.

Definition bind {A B : Type} (m : result A) (k : A -> result B) : result B :=
  match m with
  | Ok a => k a
  | Raise e => Raise e
  end.

Notation "x <- m ;; k" := (bind m (fun x => k))
  (at level 61, m at next level, right associativity).

(** ** Scalars: a real number or [np.inf] *)

Inductive xreal : Type :=
| Fin (r : R)
| PInf.

Definition Rltb (a b : R) : bool := if Rlt_dec a b then true else false.

(** [a < b] on float64 values. *)
Definition xlt (a b : xreal) : bool :=
  match a, b with
  | Fin r, Fin s => Rltb r s
  | Fin _, PInf => true
  | PInf, _ => false
  end.

(** [a > b]. *)
Definition xgt (a b : xreal) : bool := xlt b a.

(** Python's builtin [max(a, b)]: the first argument is kept unless the
    second is strictly greater. *)
Definition py_max (a b : xreal) : xreal := if xgt b a then b else a.

(** [a <= b] as a proposition, for stating bounds. *)
Definition xle (a b : xreal) : Prop :=
  match a, b with
  | Fin r, Fin s => r <= s
  | _, PInf => True
  | PInf, Fin _ => False
  end.

(** ** NumPy operations on one-dimensional arrays

    Arrays are lists of their elements; the element type is left open where
    the operation does not depend on it. *)

Fixpoint zip_with {T : Type} (f : T -> T -> T) (x y : list T) : list T :=
  match x, y with
  | a :: x', b :: y' => f a b :: zip_with f x' y'
  | _, _ => []
  end.

(** Broadcasting of a binary operation over shapes [(len x,)] and
    [(len y,)]: equal lengths go elementwise, a length-1 operand is
    stretched, anything else is a [ValueError]. *)
Definition broadcast {T : Type} (f : T -> T -> T) (x y : list T)
  : result (list T) :=
  if Nat.eqb (length x) (length y) then Ok (zip_with f x y)
  else match x, y with
       | [a], _ => Ok (map (fun b => f a b) y)
       | _, [b] => Ok (map (fun a => f a b) x)
       | _, _ => Raise ValueError
       end.

(** [x - y]. *)
Definition np_subtract (x y : list R) : result (list R) := broadcast Rminus x y.

(** [ret *= z]: the product is broadcast and must have the shape of [ret],
    which receives it. *)
Definition np_imul (ret z : list R) : result (list R) :=
  prod <- broadcast Rmult ret z ;;
  if Nat.eqb (length prod) (length ret) then Ok prod else Raise ValueError.

(** [np.sqrt(a)]. *)
Definition np_sqrt (a : list R) : list R := map sqrt a.

(** [a.sum()]: accumulation from [0.]. *)
Definition np_sum (a : list R) : R := fold_left Rplus a 0.

(** ** Two-dimensional arrays and loops *)

(** A two-dimensional array is the list of its rows; [X.shape[0]] is
    [length X] and [X[i]] is [getitem X i]. *)
Definition getitem {A : Type} (X : list A) (i : nat) : result A :=
  match nth_error X i with
  | Some row => Ok row
  | None => Raise IndexError
  end.

Definition range (m : nat) : list nat := seq 0 m.

(** [for i in idx: s = body i s], stopping at the first exception. *)
Fixpoint for_each {S : Type} (idx : list nat) (body : nat -> S -> result S)
  (s : S) : result S :=
  match idx with
  | [] => Ok s
  | i :: idx' => s' <- body i s ;; for_each idx' body s'
  end.

(** Monadic left fold over the items of a list: what an index loop that
    only reads [X[i]] amounts to. *)
Fixpoint foldM {A S : Type} (body : A -> S -> result S) (l : list A) (s : S)
  : result S :=
  match l with
  | [] => Ok s
  | a :: l' => s' <- body a s ;; foldM body l' s'
  end.

(** ** The notebook's functions (step 1: plain Python) *)

Definition metric_python (x y : list R) : result R :=
  ret <- np_subtract x y ;;
  ret <- np_imul ret ret ;;
  Ok (np_sum (np_sqrt ret)).

Definition inf_dist_python (x : list R) (Y : list (list R)) : result xreal :=
  let m := length Y in
  let inf := PInf in
  for_each (range m)
    (fun i inf =>
       Yi <- getitem Y i ;;
       dist <- metric_python x Yi ;;
       if xlt (Fin dist) inf then Ok (Fin dist) else Ok inf)
    inf.

Definition hausdorff_python (X Y : list (list R)) : result xreal :=
  let m := length X in
  let n := length Y in
  let sup1 := Fin (-1) in
  let sup2 := Fin (-1) in
  sup1 <- for_each (range m)
            (fun i sup1 =>
               Xi <- getitem X i ;;
               inf1 <- inf_dist_python Xi Y ;;
               if xgt inf1 sup1 then Ok inf1 else Ok sup1)
            sup1 ;;
  sup2 <- for_each (range n)
            (fun i sup2 =>
               Yi <- getitem Y i ;;
               inf2 <- inf_dist_python Yi X ;;
               if xgt inf2 sup2 then Ok inf2 else Ok sup2)
            sup2 ;;
  Ok (py_max sup1 sup2).

(** ** The notebook's functions (step 2: the [numba.jit] variants)

    The decorated bodies are the same statements over the same NumPy
    operations, calling each other instead of the plain variants.  In
    exact arithmetic the order in which [.sum()] adds does not matter; the
    binary64 model below tells NumPy's sum from numba's. *)

Definition metric_numba (x y : list R) : result R :=
  ret <- np_subtract x y ;;
  ret <- np_imul ret ret ;;
  Ok (np_sum (np_sqrt ret)).

Definition inf_dist_numba (x : list R) (Y : list (list R)) : result xreal :=
  let m := length Y in
  let inf := PInf in
  for_each (range m)
    (fun i inf =>
       Yi <- getitem Y i ;;
       dist <- metric_numba x Yi ;;
       if xlt (Fin dist) inf then Ok (Fin dist) else Ok inf)
    inf.

Definition hausdorff_numba (X Y : list (list R)) : result xreal :=
  let m := length X in
  let n := length Y in
  let sup1 := Fin (-1) in
  let sup2 := Fin (-1) in
  sup1 <- for_each (range m)
            (fun i sup1 =>
               Xi <- getitem X i ;;
               inf1 <- inf_dist_numba Xi Y ;;
               if xgt inf1 sup1 then Ok inf1 else Ok sup1)
            sup1 ;;
  sup2 <- for_each (range n)
            (fun i sup2 =>
               Yi <- getitem Y i ;;
               inf2 <- inf_dist_numba Yi X ;;
               if xgt inf2 sup2 then Ok inf2 else Ok sup2)
            sup2 ;;
  Ok (py_max sup1 sup2).

(** ** Specification-level notions *)

(** The Euclidean distance of the specification,
    [sqrt(sum_k (x_k - y_k)^2)]. *)
Definition euclidean (x y : list R) : R :=
  sqrt (fold_right Rplus 0 (zip_with (fun a b => (a - b) * (a - b)) x y)).

(** What the code's metric computes on points of equal dimension:
    [sum_k |x_k - y_k|]. *)
Definition manhattan (x y : list R) : R :=
  fold_right Rplus 0 (zip_with (fun a b => Rabs (a - b)) x y).

(** A point set of dimension [d]: every row has [d] coordinates. *)
Definition matrix (d : nat) (X : list (list R)) : Prop :=
  Forall (fun row => length row = d) X.

(** The two loop bodies, as functions of the row and the running value. *)
Definition inf_step (x : list R) (Yi : list R) (inf : xreal) : result xreal :=
  dist <- metric_python x Yi ;;
  if xlt (Fin dist) inf then Ok (Fin dist) else Ok inf.

Definition sup_step (Y : list (list R)) (Xi : list R) (sup : xreal)
  : result xreal :=
  inf1 <- inf_dist_python Xi Y ;;
  if xgt inf1 sup then Ok inf1 else Ok sup.

(** The running minimum after scanning the rows [Y] from [inf], when every
    call of the metric returns [sum_k |x_k - y_k|]. *)
Definition min_scan (x : list R) (Y : list (list R)) (inf : xreal) : xreal :=
  fold_left
    (fun inf Yi => if xlt (Fin (manhattan x Yi)) inf
                   then Fin (manhattan x Yi) else inf)
    Y inf.

(** The running supremum of the nearest-neighbour distances of the rows
    [X] to the set [Y], from [sup]. *)
Definition sup_scan (X Y : list (list R)) (sup : xreal) : xreal :=
  fold_left
    (fun sup Xi => if xgt (min_scan Xi Y PInf) sup
                   then min_scan Xi Y PInf else sup)
    X sup.

(** The smaller of two values, for stating how scans compose. *)
Definition xmin (a b : xreal) : xreal := if xlt b a then b else a.

(** Two arrays that hold the same set of rows, whatever the order and the
    repetitions. *)
Definition same_points (X X' : list (list R)) : Prop :=
  forall p, In p X <-> In p X'.

(** [H] bounds the distance from every row of [X] to its nearest row of
    [Y]: every row of [X] has a row of [Y] within [H]. *)
Definition covers (H : R) (X Y : list (list R)) : Prop :=
  forall Xi, In Xi X ->
  exists Yj v, In Yj Y /\ metric_python Xi Yj = Ok v /\ v <= H.

(** A point with a single coordinate, repeated over [d] coordinates: what
    broadcasting makes of it against a point of dimension [d]. *)
Definition stretch (d : nat) (p : list R) : list R := repeat (hd 0 p) d.

(** ** Store-level model: arrays as views into buffers

    NumPy arrays are objects: [X[i]] is a view that shares the memory of
    [X], [x - y] and [np.sqrt(ret)] allocate a new array, and [ret *= ret]
    overwrites the memory of [ret].  The store is the list of all buffers;
    a buffer's address is its position. *)

Module Store.

Definition buffer : Type := list R.
Definition store : Type := list buffer.

(** A one-dimensional contiguous array: [size] elements of buffer [base]
    starting at [offset]. *)
Record view : Type := mkView { base : nat; offset : nat; size : nat }.

(** A two-dimensional C-contiguous array of shape [(nrows, ncols)] that
    fills buffer [data]. *)
Record array2 : Type := mkArray2 { data : nat; nrows : nat; ncols : nat }.

(** Computations read and write the store and may raise; the store
    survives an exception. *)
Definition M (A : Type) : Type := store -> result A * store.

Definition ret {A : Type} (a : A) : M A := fun h => (Ok a, h).

Definition raise {A : Type} (e : exn) : M A := fun h => (Raise e, h).

Definition bind {A B : Type} (m : M A) (k : A -> M B) : M B :=
  fun h =>
    match m h with
    | (Ok a, h') => k a h'
    | (Raise e, h') => (Raise e, h')
    end.

Notation "x <~ m ;; k" := (bind m (fun x => k))
  (at level 61, m at next level, right associativity).

Definition lift {A : Type} (r : result A) : M A :=
  match r with
  | Ok a => ret a
  | Raise e => raise e
  end.

Fixpoint set_nth {A : Type} (n : nat) (a : A) (l : list A) : list A :=
  match n, l with
  | O, _ :: l' => a :: l'
  | S n', b :: l' => b :: set_nth n' a l'
  | _, [] => []
  end.

(** The elements a view denotes in a store. *)
Definition elements (h : store) (v : view) : list R :=
  firstn (size v) (skipn (offset v) (nth (base v) h [])).

Definition load (v : view) : M (list R) := fun h => (Ok (elements h v), h).

(** A new array holding [l], in a buffer of its own. *)
Definition alloc (l : list R) : M view :=
  fun h => (Ok (mkView (length h) 0 (length l)), h ++ [l]).

(** Overwrite the elements of [v] with [l]. *)
Definition write (v : view) (l : list R) : M unit :=
  fun h =>
    let b := nth (base v) h [] in
    (Ok tt,
     set_nth (base v)
       (firstn (offset v) b ++ l ++ skipn (offset v + size v) b) h).

(** [X[i]]: a view of row [i], no copy. *)
Definition row (X : array2) (i : nat) : M view :=
  if Nat.ltb i (nrows X)
  then ret (mkView (data X) (i * ncols X) (ncols X))
  else raise IndexError.

(** [x - y]: a new array. *)
Definition np_subtract (x y : view) : M view :=
  a <~ load x ;;
  b <~ load y ;;
  d <~ lift (broadcast Rminus a b) ;;
  alloc d.

(** [r *= z]: in place, into the memory of [r]. *)
Definition np_imul (r z : view) : M unit :=
  a <~ load r ;;
  b <~ load z ;;
  p <~ lift (np_imul a b) ;;
  write r p.

(** [np.sqrt(a)]: a new array. *)
Definition np_sqrt (a : view) : M view :=
  l <~ load a ;;
  alloc (np_sqrt l).

(** [a.sum()]. *)
Definition np_sum (a : view) : M R :=
  l <~ load a ;;
  ret (np_sum l).

Fixpoint for_each {S : Type} (idx : list nat) (body : nat -> S -> M S)
  (s : S) : M S :=
  match idx with
  | [] => ret s
  | i :: idx' => s' <~ body i s ;; for_each idx' body s'
  end.

Definition metric_python (x y : view) : M R :=
  r <~ np_subtract x y ;;
  _ <~ np_imul r r ;;
  q <~ np_sqrt r ;;
  np_sum q.

Definition inf_dist_python (x : view) (Y : array2) : M xreal :=
  let m := nrows Y in
  let inf := PInf in
  for_each (range m)
    (fun i inf =>
       Yi <~ row Y i ;;
       dist <~ metric_python x Yi ;;
       if xlt (Fin dist) inf then ret (Fin dist) else ret inf)
    inf.

Definition hausdorff_python (X Y : array2) : M xreal :=
  let m := nrows X in
  let n := nrows Y in
  let sup1 := Fin (-1) in
  let sup2 := Fin (-1) in
  sup1 <~ for_each (range m)
            (fun i sup1 =>
               Xi <~ row X i ;;
               inf1 <~ inf_dist_python Xi Y ;;
               if xgt inf1 sup1 then ret inf1 else ret sup1)
            sup1 ;;
  sup2 <~ for_each (range n)
            (fun i sup2 =>
               Yi <~ row Y i ;;
               inf2 <~ inf_dist_python Yi X ;;
               if xgt inf2 sup2 then ret inf2 else ret sup2)
            sup2 ;;
  ret (py_max sup1 sup2).

(** The rows an array denotes in a store: the value-level array. *)
Definition rows (h : store) (X : array2) : list (list R) :=
  map (fun i => elements h (mkView (data X) (i * ncols X) (ncols X)))
      (range (nrows X)).

(** An array that lives in the store. *)
Definition allocated (h : store) (X : array2) : Prop :=
  (data X < length h)%nat.

End Store.

(** ** The same statements on IEEE binary64 numbers

    The functions once more, with float64 elements as the kernel's
    binary64 numbers (round to nearest even, [infinity], [nan]), so that
    the scenarios can be run as the notebook runs them.  Here the plain and
    the decorated variant differ: NumPy and numba sum an array in
    different orders. *)

Module Binary64.

(** [a < b]: false when either side is [nan]. *)
Definition xlt (a b : float) : bool := PrimFloat.ltb a b.

Definition xgt (a b : float) : bool := xlt b a.

Definition py_max (a b : float) : float := if xgt b a then b else a.

Definition np_subtract (x y : list float) : result (list float) :=
  broadcast PrimFloat.sub x y.

Definition np_imul (ret z : list float) : result (list float) :=
  prod <- broadcast PrimFloat.mul ret z ;;
  if Nat.eqb (length prod) (length ret) then Ok prod else Raise ValueError.

Definition np_sqrt (a : list float) : list float := map PrimFloat.sqrt a.

(** NumPy's pairwise summation of a float64 array, as [ndarray.sum]
    runs it.  Fewer than 8 elements are accumulated one after the other
    from [0.].  Up to 128 elements are accumulated in 8 interleaved partial
    sums [r[0..7]] that start as the first 8 elements and take the further
    full blocks of 8; the partial sums are added as a balanced tree and the
    elements left over are added one after the other.  A longer array is
    split at half its length, rounded down to a multiple of 8, and the sums
    of the two parts are added. *)
Fixpoint sum_blocks (r a : list float) : list float * list float :=
  match a with
  | a0 :: a1 :: a2 :: a3 :: a4 :: a5 :: a6 :: a7 :: rest =>
      sum_blocks (zip_with PrimFloat.add r [a0; a1; a2; a3; a4; a5; a6; a7])
                 rest
  | _ => (r, a)
  end.

Definition tree8 (r : list float) : float :=
  match r with
  | [r0; r1; r2; r3; r4; r5; r6; r7] =>
      (((r0 + r1) + (r2 + r3)) + ((r4 + r5) + (r6 + r7)))%float
  | _ => 0%float
  end.

Definition sum_unrolled (a : list float) : float :=
  let '(r, rest) := sum_blocks (firstn 8 a) (skipn 8 a) in
  fold_left PrimFloat.add rest (tree8 r).

Fixpoint pairwise_sum (fuel : nat) (a : list float) : float :=
  let n := length a in
  if Nat.ltb n 8 then fold_left PrimFloat.add a 0%float
  else if Nat.leb n 128 then sum_unrolled a
  else
    match fuel with
    | O => sum_unrolled a
    | S fuel' =>
        let n2 := (n / 2)%nat in
        let n2 := (n2 - n2 mod 8)%nat in
        (pairwise_sum fuel' (firstn n2 a)
         + pairwise_sum fuel' (skipn n2 a))%float
    end.

(** [a.sum()] in NumPy: the reduction starts from the identity [0.] and
    adds the pairwise sum of the array. *)
Definition np_sum (a : list float) : float :=
  (0 + pairwise_sum (length a) a)%float.

(** [a.sum()] in numba's compiled code: one accumulator from [0.], the
    elements added one after the other. *)
Definition numba_sum (a : list float) : float :=
  fold_left PrimFloat.add a 0%float.

Definition metric_python (x y : list float) : result float :=
  ret <- np_subtract x y ;;
  ret <- np_imul ret ret ;;
  Ok (np_sum (np_sqrt ret)).

Definition inf_dist_python (x : list float) (Y : list (list float))
  : result float :=
  let m := length Y in
  let inf := PrimFloat.infinity in
  for_each (range m)
    (fun i inf =>
       Yi <- getitem Y i ;;
       dist <- metric_python x Yi ;;
       if xlt dist inf then Ok dist else Ok inf)
    inf.

Definition hausdorff_python (X Y : list (list float)) : result float :=
  let m := length X in
  let n := length Y in
  let sup1 := (-1)%float in
  let sup2 := (-1)%float in
  sup1 <- for_each (range m)
            (fun i sup1 =>
               Xi <- getitem X i ;;
               inf1 <- inf_dist_python Xi Y ;;
               if xgt inf1 sup1 then Ok inf1 else Ok sup1)
            sup1 ;;
  sup2 <- for_each (range n)
            (fun i sup2 =>
               Yi <- getitem Y i ;;
               inf2 <- inf_dist_python Yi X ;;
               if xgt inf2 sup2 then Ok inf2 else Ok sup2)
            sup2 ;;
  Ok (py_max sup1 sup2).

(** The [numba.jit] variants: the same statements, compiled; [.sum()] is
    numba's. *)
Definition metric_numba (x y : list float) : result float :=
  ret <- np_subtract x y ;;
  ret <- np_imul ret ret ;;
  Ok (numba_sum (np_sqrt ret)).

Definition inf_dist_numba (x : list float) (Y : list (list float))
  : result float :=
  let m := length Y in
  let inf := PrimFloat.infinity in
  for_each (range m)
    (fun i inf =>
       Yi <- getitem Y i ;;
       dist <- metric_numba x Yi ;;
       if xlt dist inf then Ok dist else Ok inf)
    inf.

Definition hausdorff_numba (X Y : list (list float)) : result float :=
  let m := length X in
  let n := length Y in
  let sup1 := (-1)%float in
  let sup2 := (-1)%float in
  sup1 <- for_each (range m)
            (fun i sup1 =>
               Xi <- getitem X i ;;
               inf1 <- inf_dist_numba Xi Y ;;
               if xgt inf1 sup1 then Ok inf1 else Ok sup1)
            sup1 ;;
  sup2 <- for_each (range n)
            (fun i sup2 =>
               Yi <- getitem Y i ;;
               inf2 <- inf_dist_numba Yi X ;;
               if xgt inf2 sup2 then Ok inf2 else Ok sup2)
            sup2 ;;
  Ok (py_max sup1 sup2).

(** A float64 point set of dimension [d]. *)
Definition matrix (d : nat) (X : list (list float)) : Prop :=
  Forall (fun row => length row = d) X.

(** A binary64 number whose sign bit is clear, or [nan]: what a square
    root of a square and a sum of such values are. *)
Definition sf_nonneg (x : spec_float) : Prop :=
  match x with
  | S754_nan => True
  | S754_zero s | S754_infinity s | S754_finite s _ _ => s = false
  end.

Definition nonneg (a : float) : Prop := sf_nonneg (Prim2SF a).

End Binary64.

(** The loop of the binary64 evaluator that takes the supremum, over the
    rows of [X], of the nearest-neighbour distance to [Y]; the evaluator
    runs it on [(X, Y)] and then on [(Y, X)]. *)
Definition binary64_sup_loop (X Y : list (list float)) : result float :=
  for_each (range (length X))
    (fun i sup1 =>
       Xi <- getitem X i ;;
       inf1 <- Binary64.inf_dist_python Xi Y ;;
       if Binary64.xgt inf1 sup1 then Ok inf1 else Ok sup1)
    (-1)%float.

(** [a == a]: a binary64 number that is not [nan]. *)
Definition is_number (a : float) : Prop := PrimFloat.eqb a a = true.

(** ** Sizes of Python objects (03_memmap/03_memmap.ipynb)

    [get_size] walks an object graph.  The heap is the list of all objects;
    [id(obj)] is the position of [obj].  An object is what [get_size] asks
    of it: its [sys.getsizeof], whether it is a [dict] (with the ids of its
    keys and values, in order), whether it has a [__dict__], whether it has
    [__iter__] (with the ids of the items that iterating it yields), and
    whether it is a [str], [bytes] or [bytearray].  The set [seen] is one
    object shared by all the recursive calls: it is threaded through them.
    The recursion depth is bounded by [fuel].

    The heap does not change during a call: the items that iterating an
    object yields are objects of the heap.  This is so for lists, tuples,
    sets, dicts and instances; it is not so for NumPy arrays and sparse
    matrices, whose iteration creates temporary objects. *)

Module Memmap.

Record object : Type := mkObject {
  getsizeof : nat;
  dict_items : option (list (nat * nat));
  dunder_dict : option nat;
  iter_items : option (list nat);
  is_text : bool
}.

Definition heap : Type := list object.

Definition idset : Type := set nat.

(** [sum(l)]. *)
Definition py_sum (l : list nat) : nat := fold_left Nat.add l 0%nat.

(** [[f(v, seen) for v in items]]: the calls run in order on the shared
    set. *)
Fixpoint comprehension (f : nat -> option idset -> option (nat * idset))
  (items : list nat) (seen : idset) : option (list nat * idset) :=
  match items with
  | [] => Some ([], seen)
  | v :: items' =>
      match f v (Some seen) with
      | None => None
      | Some (n, seen1) =>
          match comprehension f items' seen1 with
          | None => None
          | Some (ns, seen2) => Some (n :: ns, seen2)
          end
      end
  end.

(** [get_size(obj, seen)]: the size returned and the set [seen] as the
    call leaves it; [None] when the recursion is deeper than [fuel] or an
    id is not in the heap. *)
Fixpoint get_size (fuel : nat) (h : heap) (obj : nat) (seen : option idset)
  : option (nat * idset) :=
  match fuel with
  | O => None
  | S fuel' =>
      match nth_error h obj with
      | None => None
      | Some o =>
          let size := getsizeof o in
          let seen := match seen with
                      | None => empty_set nat
                      | Some s => s
                      end in
          let obj_id := obj in
          if set_mem Nat.eq_dec obj_id seen then Some (0%nat, seen)
          else
            let seen := set_add Nat.eq_dec obj_id seen in
            match dict_items o with
            | Some kvs =>
                match comprehension (get_size fuel' h) (map snd kvs) seen with
                | None => None
                | Some (vs, seen) =>
                    let size := (size + py_sum vs)%nat in
                    match comprehension (get_size fuel' h) (map fst kvs) seen
                    with
                    | None => None
                    | Some (ks, seen) => Some ((size + py_sum ks)%nat, seen)
                    end
                end
            | None =>
                match dunder_dict o with
                | Some d =>
                    match get_size fuel' h d (Some seen) with
                    | None => None
                    | Some (n, seen) => Some ((size + n)%nat, seen)
                    end
                | None =>
                    match iter_items o with
                    | Some items =>
                        if negb (is_text o) then
                          match comprehension (get_size fuel' h) items seen with
                          | None => None
                          | Some (ns, seen) => Some ((size + py_sum ns)%nat, seen)
                          end
                        else Some (size, seen)
                    | None => Some (size, seen)
                    end
                end
            end
      end
  end.

(** The objects [get_size] descends into from an object, in the order of
    the calls. *)
Definition children (o : object) : list nat :=
  match dict_items o with
  | Some kvs => map snd kvs ++ map fst kvs
  | None =>
      match dunder_dict o with
      | Some d => [d]
      | None =>
          match iter_items o with
          | Some items => if negb (is_text o) then items else []
          | None => []
          end
      end
  end.

(** [b] is one of the objects [get_size] descends into from [a]. *)
Definition child (h : heap) (a b : nat) : Prop :=
  exists o, nth_error h a = Some o /\ In b (children o).

(** [b] is reached from [a] by zero or more descents. *)
Definition reach (h : heap) : nat -> nat -> Prop :=
  clos_refl_trans nat (child h).


(** [sys.getsizeof] of the object with id [i]. *)
Definition size_of (h : heap) (i : nat) : nat :=
  match nth_error h i with
  | Some o => getsizeof o
  | None => 0%nat
  end.

(** The total [sys.getsizeof] of the objects with ids [ids]. *)
Definition total (h : heap) (ids : list nat) : nat :=
  list_sum (map (size_of h) ids).


(** What a call has done when it returns [n] and leaves [seen'], having
    started from the objects [roots] with the set [seen]: it has added to
    the set a duplicate-free list [new] of ids that were not in it, [n] is
    their total size, the roots are now in the set, every new id is reached
    from a root, and everything a new object refers to is in the set. *)
Definition accounted (h : heap) (roots : list nat) (seen : idset) (n : nat)
  (seen' : idset) : Prop :=
  exists new,
    NoDup new
    /\ (forall i, In i new -> ~ In i seen)
    /\ (forall i, In i seen' <-> In i seen \/ In i new)
    /\ n = total h new
    /\ (forall c, In c roots -> In c seen')
    /\ (forall a, In a new -> exists c, In c roots /\ reach h c a)
    /\ (forall a b, In a new -> child h a b -> In b seen').

(** A heap with a cycle and sharing: a list that contains itself and twice
    the same [int]; the [int]; an instance with a [__dict__] (and an
    [__iter__] that is not followed); its [__dict__], a [dict] from a [str]
    to the list; the [str]. *)
Definition example_heap : heap :=
  [ mkObject 80 None None (Some [0; 1; 1]%nat) false;
    mkObject 28 None None None false;
    mkObject 48 None (Some 3%nat) (Some [1%nat]) false;
    mkObject 232 (Some [(4, 0)]%nat) None (Some [4%nat]) false;
    mkObject 51 None None (Some [4; 4]%nat) true ].

End Memmap.

(** * Properties *)

(** ** Comparisons *)

Lemma Rltb_true (a b : R) : Rltb a b = true <-> a < b.
Proof.
  unfold Rltb. destruct (Rlt_dec a b); split; intros; try easy.
Qed.

Lemma Rltb_false (a b : R) : Rltb a b = false <-> b <= a.
Proof.
  unfold Rltb. destruct (Rlt_dec a b); split; intros; try easy; lra.
Qed.

Ltac decide_Rltb :=
  repeat match goal with
  | |- context [Rltb ?a ?b] =>
      let H := fresh "H" in
      destruct (Rltb a b) eqn:H;
      [apply Rltb_true in H | apply Rltb_false in H]
  end.

Lemma xle_refl (a : xreal) : xle a a.
Proof. destruct a; simpl; [lra | exact I]. Qed.

Lemma xle_trans (a b c : xreal) : xle a b -> xle b c -> xle a c.
Proof. destruct a, b, c; simpl; intros; try easy; lra. Qed.

Lemma py_max_comm (a b : xreal) : py_max a b = py_max b a.
Proof.
  unfold py_max, xgt. destruct a as [r|], b as [s|]; simpl; try reflexivity.
  decide_Rltb; try reflexivity; try lra. f_equal; lra.
Qed.

(** ** The error monad and loops *)

Lemma for_each_shift {A S : Type} (body : A -> S -> result S) (pre l : list A) :
  forall s,
    for_each (seq (length pre) (length l))
      (fun i s => a <- getitem (pre ++ l) i ;; body a s) s
    = foldM body l s.
Proof.
  revert pre. induction l as [|a l IH]; intros pre s; [reflexivity|].
  simpl. unfold getitem at 1. rewrite nth_error_app2 by lia.
  rewrite Nat.sub_diag. simpl.
  destruct (body a s) as [s'|e]; simpl; [|reflexivity].
  specialize (IH (pre ++ [a]) s').
  rewrite length_app, Nat.add_1_r, <- app_assoc in IH. exact IH.
Qed.

(** An index loop over [range(len(X))] that only uses [X[i]] is a fold
    over the rows; in particular [X[i]] never raises. *)
Lemma for_each_range {A S : Type} (body : A -> S -> result S) (l : list A) (s : S) :
  for_each (range (length l)) (fun i s => a <- getitem l i ;; body a s) s
  = foldM body l s.
Proof. exact (for_each_shift body [] l s). Qed.

(** ** The metric *)

Lemma zip_with_length (f : R -> R -> R) (x y : list R) :
  length x = length y -> length (zip_with f x y) = length x.
Proof.
  revert y. induction x as [|a x IH]; intros [|b y] H; simpl in *; try easy.
  f_equal. apply IH. lia.
Qed.

Lemma broadcast_same (f : R -> R -> R) (x y : list R) :
  length x = length y -> broadcast f x y = Ok (zip_with f x y).
Proof. intros H. unfold broadcast. rewrite H, Nat.eqb_refl. reflexivity. Qed.

Lemma np_imul_self (d : list R) : np_imul d d = Ok (zip_with Rmult d d).
Proof.
  unfold np_imul. rewrite broadcast_same by reflexivity. simpl.
  rewrite zip_with_length by reflexivity. now rewrite Nat.eqb_refl.
Qed.

Lemma np_sum_fold_right (a : list R) : np_sum a = fold_right Rplus 0 a.
Proof.
  unfold np_sum. rewrite <- fold_left_rev_right.
  assert (G : forall l acc, fold_right (fun y x => x + y) acc l
                            = fold_right Rplus 0 l + acc).
  { induction l as [|c l IH]; intros acc; simpl; [lra | rewrite IH; lra]. }
  rewrite G. induction a as [|c a IH]; simpl; [lra|].
  rewrite fold_right_app. simpl.
  assert (G' : forall l acc, fold_right Rplus acc l = fold_right Rplus 0 l + acc).
  { induction l as [|d l IHl]; intros acc; simpl; [lra | rewrite IHl; lra]. }
  rewrite G'. lra.
Qed.

Lemma sqrt_square_abs (r : R) : sqrt (r * r) = Rabs r.
Proof. exact (sqrt_Rsqr_abs r). Qed.

Lemma squares_abs (x y : list R) :
  np_sum (np_sqrt (zip_with Rmult (zip_with Rminus x y) (zip_with Rminus x y)))
  = manhattan x y.
Proof.
  rewrite np_sum_fold_right. unfold manhattan, np_sqrt.
  revert y. induction x as [|a x IH]; intros [|b y]; simpl; try reflexivity.
  rewrite IH, sqrt_square_abs. reflexivity.
Qed.

(** On points of equal dimension the metric never raises and is the sum of
    the absolute coordinate differences. *)
Lemma metric_python_same (x y : list R) :
  length x = length y -> metric_python x y = Ok (manhattan x y).
Proof.
  intros H. unfold metric_python, np_subtract, np_imul.
  rewrite (broadcast_same _ _ _ H). simpl.
  rewrite broadcast_same by reflexivity. simpl.
  rewrite zip_with_length by reflexivity. rewrite Nat.eqb_refl. simpl.
  rewrite squares_abs. reflexivity.
Qed.

Lemma manhattan_nonneg (x y : list R) : 0 <= manhattan x y.
Proof.
  unfold manhattan. revert y.
  induction x as [|a x IH]; intros [|b y]; simpl; try lra.
  specialize (IH y). pose proof (Rabs_pos (a - b)). lra.
Qed.

Lemma manhattan_self (x : list R) : manhattan x x = 0.
Proof.
  unfold manhattan. induction x as [|a x IH]; simpl; [reflexivity|].
  rewrite IH. replace (a - a) with 0 by lra. rewrite Rabs_R0. lra.
Qed.

(** ** Concrete evaluations *)

Lemma Rabs_of_nonneg (r : R) : 0 <= r -> Rabs r = r.
Proof. intros H. apply Rabs_right. lra. Qed.

Lemma Rabs_of_nonpos (r : R) : r <= 0 -> Rabs r = - r.
Proof.
  intros H. destruct (Req_dec r 0) as [-> | Hn].
  - rewrite Rabs_R0. lra.
  - apply Rabs_left. lra.
Qed.

(** The scenarios of the specification and the inputs used below, run on
    binary64 numbers. *)
Lemma binary64_metric_3_4 :
  Binary64.metric_python [3; 4]%float [0; 0]%float = Ok 7%float.
Proof. vm_compute. reflexivity. Qed.

Lemma binary64_metric_stretch :
  Binary64.metric_python [5]%float [1; 2; 3]%float = Ok 9%float.
Proof. vm_compute. reflexivity. Qed.

Lemma binary64_scenarios :
  Binary64.hausdorff_python [[0; 0; 0]]%float [[0; 0; 0]]%float = Ok 0%float
  /\ Binary64.hausdorff_python [[0; 0; 0]]%float [[1; 0; 0]]%float
     = Ok 1%float
  /\ Binary64.hausdorff_python [[0; 0; 0]; [10; 10; 10]]%float
       [[0; 0; 0]]%float = Ok 30%float
  /\ Binary64.hausdorff_python [] [[0; 0; 0]]%float = Ok PrimFloat.infinity
  /\ Binary64.hausdorff_python [[0; 0]]%float [[0; 0; 0]]%float
     = Raise ValueError
  /\ Binary64.hausdorff_python [] [] = Ok (-1)%float.
Proof. vm_compute. repeat split; reflexivity. Qed.

Lemma metric_3_4 : metric_python [3; 4] [0; 0] = Ok 7.
Proof.
  rewrite metric_python_same by reflexivity. f_equal.
  unfold manhattan. simpl.
  rewrite !Rabs_of_nonneg by lra. lra.
Qed.

Lemma euclidean_3_4 : euclidean [3; 4] [0; 0] = 5.
Proof.
  unfold euclidean. simpl.
  replace ((3 - 0) * (3 - 0) + ((4 - 0) * (4 - 0) + 0)) with (5 * 5) by lra.
  apply sqrt_square. lra.
Qed.

(** C1 (the code departs from the claim).  [metric_python] takes the square
    root of every squared difference before summing, so it returns
    [sum_k |x_k - y_k|] and not the Euclidean distance its docstring
    announces: on [x = [3, 4]], [y = [0, 0]] it returns [7] where the
    Euclidean distance is [5]; [metric_numba] returns the same [7]. *)
Theorem C1_metric_is_not_euclidean :
  metric_python [3; 4] [0; 0] = Ok 7
  /\ metric_numba [3; 4] [0; 0] = Ok 7
  /\ euclidean [3; 4] [0; 0] = 5
  /\ metric_python [3; 4] [0; 0] <> Ok (euclidean [3; 4] [0; 0])
  /\ Binary64.metric_python [3; 4]%float [0; 0]%float = Ok 7%float.
Proof.
  split; [exact metric_3_4|].
  split; [exact metric_3_4|].
  split; [exact euclidean_3_4|].
  split; [|exact binary64_metric_3_4].
  rewrite metric_3_4, euclidean_3_4. intros H. inversion H. lra.
Qed.

(** ** The scans as folds *)

Lemma inf_dist_python_fold (x : list R) (Y : list (list R)) :
  inf_dist_python x Y = foldM (inf_step x) Y PInf.
Proof.
  unfold inf_dist_python.
  pose proof (for_each_range (inf_step x) Y PInf) as H.
  unfold inf_step in H at 1. exact H.
Qed.

Lemma hausdorff_python_fold (X Y : list (list R)) :
  hausdorff_python X Y =
  (sup1 <- foldM (sup_step Y) X (Fin (-1)) ;;
   sup2 <- foldM (sup_step X) Y (Fin (-1)) ;;
   Ok (py_max sup1 sup2)).
Proof.
  unfold hausdorff_python.
  pose proof (for_each_range (sup_step Y) X (Fin (-1))) as H1.
  pose proof (for_each_range (sup_step X) Y (Fin (-1))) as H2.
  unfold sup_step in H1 at 1. unfold sup_step in H2 at 1.
  cbv zeta. rewrite H1.
  destruct (foldM (sup_step Y) X (Fin (-1))) as [s1|e]; simpl; [|reflexivity].
  rewrite H2. reflexivity.
Qed.

Lemma foldM_inf_step (x : list R) (Y : list (list R)) :
  matrix (length x) Y ->
  forall inf, foldM (inf_step x) Y inf = Ok (min_scan x Y inf).
Proof.
  unfold matrix. induction 1 as [|Yi Y Hlen _ IH]; intros inf; [reflexivity|].
  cbn [foldM min_scan fold_left]. unfold inf_step at 1.
  rewrite metric_python_same by (symmetry; exact Hlen). cbn [bind].
  destruct (xlt (Fin (manhattan x Yi)) inf); cbn [bind]; apply IH.
Qed.

(** On a point and a set of one dimension the nearest-neighbour scan never
    raises. *)
Lemma inf_dist_python_matrix (x : list R) (Y : list (list R)) :
  matrix (length x) Y -> inf_dist_python x Y = Ok (min_scan x Y PInf).
Proof. intros H. rewrite inf_dist_python_fold. apply foldM_inf_step, H. Qed.

Lemma foldM_sup_step (d : nat) (X Y : list (list R)) :
  matrix d X -> matrix d Y ->
  forall sup, foldM (sup_step Y) X sup = Ok (sup_scan X Y sup).
Proof.
  intros HX HY. unfold matrix in HX.
  induction HX as [|Xi X Hlen _ IH]; intros sup; [reflexivity|].
  cbn [foldM sup_scan fold_left]. unfold sup_step at 1.
  rewrite inf_dist_python_matrix by (rewrite Hlen; exact HY). cbn [bind].
  destruct (xgt (min_scan Xi Y PInf) sup); cbn [bind]; apply IH.
Qed.

(** On two sets of one dimension the evaluator never raises, and its value
    is the larger of the two directed suprema. *)
Lemma hausdorff_python_matrix (d : nat) (X Y : list (list R)) :
  matrix d X -> matrix d Y ->
  hausdorff_python X Y
  = Ok (py_max (sup_scan X Y (Fin (-1))) (sup_scan Y X (Fin (-1)))).
Proof.
  intros HX HY. rewrite hausdorff_python_fold.
  rewrite (foldM_sup_step d X Y HX HY). simpl.
  rewrite (foldM_sup_step d Y X HY HX). reflexivity.
Qed.

(** Evaluation of the scans on concrete coordinates. *)
Ltac eval_Rabs :=
  repeat match goal with
  | |- context [Rabs ?r] =>
      first [ rewrite (Rabs_of_nonneg r) by lra
            | rewrite (Rabs_of_nonpos r) by lra ]
  end.

Ltac eval_Rltb :=
  repeat match goal with
  | |- context [Rltb ?a ?b] =>
      first [ replace (Rltb a b) with true by (symmetry; apply Rltb_true; lra)
            | replace (Rltb a b) with false by (symmetry; apply Rltb_false; lra) ]
  end.

Ltac eval_scans :=
  unfold py_max, sup_scan, min_scan, xgt, xlt, manhattan; simpl;
  eval_Rabs; eval_Rltb.

Lemma hausdorff_scenario_C :
  hausdorff_python [[0; 0; 0]; [10; 10; 10]] [[0; 0; 0]] = Ok (Fin 30).
Proof.
  rewrite (hausdorff_python_matrix 3) by (repeat constructor).
  eval_scans. do 2 f_equal. lra.
Qed.

Lemma ten_sqrt3_lt_30 : 10 * sqrt 3 < 30.
Proof.
  assert (H : sqrt 3 < sqrt 9) by (apply sqrt_lt_1; lra).
  replace 9 with (3 * 3) in H by lra.
  rewrite sqrt_square in H by lra. lra.
Qed.

(** C2 (the code departs from the claim).  On scenario C,
    [X = [[0,0,0],[10,10,10]]] and [Y = [[0,0,0]]], the evaluator returns
    [30], the sum of the coordinate differences, and not [10 * sqrt 3]. *)
Theorem C2_scenario_C_returns_30 :
  hausdorff_python [[0; 0; 0]; [10; 10; 10]] [[0; 0; 0]] = Ok (Fin 30)
  /\ hausdorff_python [[0; 0; 0]; [10; 10; 10]] [[0; 0; 0]]
     <> Ok (Fin (10 * sqrt 3))
  /\ Binary64.hausdorff_python [[0; 0; 0]; [10; 10; 10]]%float
       [[0; 0; 0]]%float = Ok 30%float.
Proof.
  split; [exact hausdorff_scenario_C|].
  split; [|apply binary64_scenarios].
  rewrite hausdorff_scenario_C. intros H. inversion H as [H'].
  pose proof ten_sqrt3_lt_30. lra.
Qed.

(** ** Empty point sets *)

Lemma inf_dist_python_empty (x : list R) : inf_dist_python x [] = Ok PInf.
Proof. reflexivity. Qed.

Lemma foldM_sup_step_empty (X : list (list R)) (sup : xreal) :
  foldM (sup_step []) X sup = Ok (match X with [] => sup | _ => PInf end).
Proof.
  assert (G : forall X, foldM (sup_step []) X PInf = Ok PInf).
  { induction X0 as [|Xi X0 IH]; [reflexivity|]. simpl. exact IH. }
  destruct X as [|Xi X]; [reflexivity|].
  simpl. destruct sup; simpl; apply G.
Qed.

Lemma hausdorff_python_empty_right (Xi : list R) (X : list (list R)) :
  hausdorff_python (Xi :: X) [] = Ok PInf.
Proof.
  rewrite hausdorff_python_fold, foldM_sup_step_empty. reflexivity.
Qed.

Lemma hausdorff_python_empty_left (Yi : list R) (Y : list (list R)) :
  hausdorff_python [] (Yi :: Y) = Ok PInf.
Proof.
  rewrite hausdorff_python_fold, foldM_sup_step_empty. reflexivity.
Qed.

Lemma hausdorff_python_empty_both : hausdorff_python [] [] = Ok (Fin (-1)).
Proof.
  rewrite hausdorff_python_fold. cbn [foldM bind].
  unfold py_max, xgt, xlt. eval_Rltb. reflexivity.
Qed.

(** C3, as stated, fails: with [X = []] and [Y = [[0,0,0]]] the evaluator
    returns a value, so not every call with an empty set raises. *)
Lemma C3_empty_set_does_not_raise :
  ~ (forall X Y : list (list R),
        X = [] \/ Y = [] -> exists e, hausdorff_python X Y = Raise e).
Proof.
  intros H. destruct (H [] [[0; 0; 0]]) as [e He]; [left; reflexivity|].
  rewrite hausdorff_python_empty_left in He. discriminate.
Qed.

(** C3, amended.  When at least one of the two point sets is empty the
    evaluator raises nothing and returns a value: [np.inf] when exactly one
    set is empty and [-1.] when both are; in particular
    [hausdorff([], [[0,0,0]])] is [np.inf]. *)
Theorem C3_empty_set_returns_value (X Y : list (list R)) :
  X = [] \/ Y = [] ->
  hausdorff_python X Y
  = Ok (match X, Y with [], [] => Fin (-1) | _, _ => PInf end)
  /\ hausdorff_python [] [[0; 0; 0]] = Ok PInf.
Proof.
  intros H. split; [|apply hausdorff_python_empty_left].
  destruct X as [|Xi X], Y as [|Yi Y].
  - apply hausdorff_python_empty_both.
  - apply hausdorff_python_empty_left.
  - apply hausdorff_python_empty_right.
  - destruct H; discriminate.
Qed.

Lemma C3_empty_set_returns_value_witness :
  hausdorff_python [[1; 2; 3]; [4; 5; 6]] [] = Ok PInf
  /\ hausdorff_python [] [[0; 0; 0]] = Ok PInf.
Proof.
  apply (C3_empty_set_returns_value [[1; 2; 3]; [4; 5; 6]] []).
  right. reflexivity.
Defined.

(** The same on binary64 numbers, whatever the coordinates are. *)
Lemma binary64_sup_loop_empty (Xi : list float) (X : list (list float)) :
  foldM (fun Xi sup =>
           inf1 <- Binary64.inf_dist_python Xi [] ;;
           if Binary64.xgt inf1 sup then Ok inf1 else Ok sup)
        (Xi :: X) (-1)%float
  = Ok PrimFloat.infinity.
Proof.
  assert (G : forall X,
             foldM (fun Xi sup =>
                      inf1 <- Binary64.inf_dist_python Xi [] ;;
                      if Binary64.xgt inf1 sup then Ok inf1 else Ok sup)
                   X PrimFloat.infinity
             = Ok PrimFloat.infinity).
  { induction X0 as [|X0i X0 IH]; [reflexivity|].
    cbn [foldM]. change (Binary64.inf_dist_python X0i []) with (Ok PrimFloat.infinity).
    cbn [bind].
    change (Binary64.xgt PrimFloat.infinity PrimFloat.infinity) with false.
    cbn [bind]. exact IH. }
  cbn [foldM]. change (Binary64.inf_dist_python Xi []) with (Ok PrimFloat.infinity).
  cbn [bind]. change (Binary64.xgt PrimFloat.infinity (-1)%float) with true.
  cbn [bind]. apply G.
Qed.

Lemma binary64_hausdorff_empty_right (Xi : list float) (X : list (list float)) :
  Binary64.hausdorff_python (Xi :: X) [] = Ok PrimFloat.infinity.
Proof.
  unfold Binary64.hausdorff_python. cbv zeta.
  rewrite (for_each_range
             (fun Xi sup =>
                inf1 <- Binary64.inf_dist_python Xi [] ;;
                if Binary64.xgt inf1 sup then Ok inf1 else Ok sup)
             (Xi :: X) (-1)%float).
  rewrite binary64_sup_loop_empty. reflexivity.
Qed.

Lemma binary64_hausdorff_empty_left (Yi : list float) (Y : list (list float)) :
  Binary64.hausdorff_python [] (Yi :: Y) = Ok PrimFloat.infinity.
Proof.
  unfold Binary64.hausdorff_python. cbv zeta.
  change (for_each (range (length (@nil (list float)))) _ (-1)%float)
    with (@Ok float (-1)%float).
  cbn [bind].
  rewrite (for_each_range
             (fun Yi sup =>
                inf2 <- Binary64.inf_dist_python Yi [] ;;
                if Binary64.xgt inf2 sup then Ok inf2 else Ok sup)
             (Yi :: Y) (-1)%float).
  rewrite binary64_sup_loop_empty. reflexivity.
Qed.

(** C10.  With both point sets empty [hausdorff_python] returns the
    sentinel [-1.], a negative number, and raises nothing; with exactly one
    of them empty it returns [np.inf] and raises nothing.  This holds in
    the real-number model and on binary64 numbers alike. *)
Theorem C10_empty_sets_sentinels :
  (hausdorff_python [] [] = Ok (Fin (-1)) /\ -1 < 0)
  /\ (forall Xi X, hausdorff_python (Xi :: X) [] = Ok PInf)
  /\ (forall Yi Y, hausdorff_python [] (Yi :: Y) = Ok PInf)
  /\ (Binary64.hausdorff_python [] [] = Ok (-1)%float
      /\ PrimFloat.ltb (-1) 0 = true)
  /\ (forall Xi X, Binary64.hausdorff_python (Xi :: X) [] = Ok PrimFloat.infinity)
  /\ (forall Yi Y, Binary64.hausdorff_python [] (Yi :: Y) = Ok PrimFloat.infinity).
Proof.
  split; [split; [apply hausdorff_python_empty_both | lra]|].
  split; [apply hausdorff_python_empty_right|].
  split; [apply hausdorff_python_empty_left|].
  split; [split; reflexivity|].
  split; [apply binary64_hausdorff_empty_right
         | apply binary64_hausdorff_empty_left].
Qed.

(** ** Points of different dimension *)

Lemma metric_python_broadcast_5 : metric_python [5] [1; 2; 3] = Ok 9.
Proof.
  unfold metric_python, np_subtract, np_imul, broadcast. simpl.
  unfold np_sum. simpl. rewrite !sqrt_square_abs. eval_Rabs. f_equal. lra.
Qed.

(** C4, as stated, fails: a point of dimension 1 is broadcast against a
    point of dimension 3 and a value is returned. *)
Lemma C4_dimension_one_is_broadcast :
  ~ (forall x y : list R,
        length x <> length y -> exists e, metric_python x y = Raise e).
Proof.
  intros H. destruct (H [5] [1; 2; 3]) as [e He]; [simpl; lia|].
  rewrite metric_python_broadcast_5 in He. discriminate.
Qed.

Lemma metric_python_stretch (a : R) (z : list R) :
  exists v w, metric_python [a] z = Ok v /\ metric_python z [a] = Ok w.
Proof.
  unfold metric_python, np_subtract, broadcast.
  destruct z as [|b [|b' z]]; cbn [length Nat.eqb bind];
    rewrite ?np_imul_self; cbn [bind]; eauto.
Qed.

(** C4, amended.  For points [x], [y] with [len(x) != len(y)] and neither
    of dimension 1, the metric raises NumPy's broadcast [ValueError];
    consequently [hausdorff([[0,0]], [[0,0,0]])] raises it.  A point of
    dimension 1 is stretched against the other point instead, and a value
    is returned. *)
Theorem C4_dimension_mismatch_raises (x y : list R) :
  length x <> length y -> length x <> 1%nat -> length y <> 1%nat ->
  metric_python x y = Raise ValueError
  /\ metric_numba x y = Raise ValueError
  /\ hausdorff_python [[0; 0]] [[0; 0; 0]] = Raise ValueError
  /\ (forall a z, exists v w,
         metric_python [a] z = Ok v /\ metric_python z [a] = Ok w).
Proof.
  intros Hxy Hx Hy.
  assert (G : metric_python x y = Raise ValueError).
  { unfold metric_python, np_subtract, broadcast.
    apply Nat.eqb_neq in Hxy. rewrite Hxy.
    destruct x as [|a [|a' x]]; destruct y as [|b [|b' y]];
      simpl in *; try reflexivity; try lia; discriminate. }
  split; [exact G|]. split; [exact G|]. split; [reflexivity|].
  exact metric_python_stretch.
Qed.

Lemma C4_dimension_mismatch_raises_witness :
  metric_python [0; 0] [0; 0; 0] = Raise ValueError
  /\ metric_numba [0; 0] [0; 0; 0] = Raise ValueError
  /\ hausdorff_python [[0; 0]] [[0; 0; 0]] = Raise ValueError
  /\ (forall a z, exists v w,
         metric_python [a] z = Ok v /\ metric_python z [a] = Ok w).
Proof.
  apply (C4_dimension_mismatch_raises [0; 0] [0; 0; 0]); simpl; lia.
Defined.

(** ** Invariants of the two scans *)

Lemma xlt_false_xle (a b : xreal) : xlt a b = false -> xle b a.
Proof.
  destruct a, b; simpl; try easy. intros H. apply Rltb_false in H. exact H.
Qed.

Lemma xlt_true_xle (a b : xreal) : xlt a b = true -> xle a b.
Proof.
  destruct a, b; simpl; try easy. intros H. apply Rltb_true in H. lra.
Qed.

(** The running minimum is below its start and below every distance seen,
    and it is the start or one of the distances seen. *)
Lemma min_scan_spec (x : list R) (Y : list (list R)) :
  forall inf,
    xle (min_scan x Y inf) inf
    /\ (forall Yj, In Yj Y -> xle (min_scan x Y inf) (Fin (manhattan x Yj)))
    /\ (min_scan x Y inf = inf
        \/ exists Yj, In Yj Y /\ min_scan x Y inf = Fin (manhattan x Yj)).
Proof.
  induction Y as [|Yi Y IH]; intros inf.
  - simpl. split; [apply xle_refl|]. split; [intros ? []|]. now left.
  - cbn [min_scan fold_left].
    set (inf' := if xlt (Fin (manhattan x Yi)) inf
                 then Fin (manhattan x Yi) else inf).
    destruct (IH inf') as (Hle & Hall & Hin). fold (min_scan x Y inf').
    assert (Hstep : xle inf' inf /\ xle inf' (Fin (manhattan x Yi))).
    { unfold inf'. destruct (xlt (Fin (manhattan x Yi)) inf) eqn:E.
      - split; [apply xlt_true_xle, E | apply xle_refl].
      - split; [apply xle_refl | apply xlt_false_xle, E]. }
    destruct Hstep as [Hs1 Hs2].
    split; [eapply xle_trans; eassumption|].
    split.
    + intros Yj [<- | HIn]; [eapply xle_trans; eassumption | apply Hall, HIn].
    + destruct Hin as [Heq | (Yj & HIn & Heq)].
      * rewrite Heq. unfold inf'.
        destruct (xlt (Fin (manhattan x Yi)) inf); [right | now left].
        exists Yi. split; [now left | reflexivity].
      * right. exists Yj. split; [now right | exact Heq].
Qed.

(** Over a non-empty set the running minimum is one of the distances. *)
Lemma min_scan_attained (x Yi : list R) (Y : list (list R)) :
  exists Yj, In Yj (Yi :: Y)
             /\ min_scan x (Yi :: Y) PInf = Fin (manhattan x Yj).
Proof.
  destruct (min_scan_spec x (Yi :: Y) PInf) as (_ & Hall & [Heq | Hin]);
    [|exact Hin].
  specialize (Hall Yi (or_introl eq_refl)). rewrite Heq in Hall.
  destruct Hall.
Qed.

(** The running supremum is above its start and above every
    nearest-neighbour distance seen, and it is the start or one of them. *)
Lemma sup_scan_spec (X Y : list (list R)) :
  forall sup,
    xle sup (sup_scan X Y sup)
    /\ (forall Xi, In Xi X -> xle (min_scan Xi Y PInf) (sup_scan X Y sup))
    /\ (sup_scan X Y sup = sup
        \/ exists Xi, In Xi X /\ sup_scan X Y sup = min_scan Xi Y PInf).
Proof.
  induction X as [|Xi X IH]; intros sup.
  - simpl. split; [apply xle_refl|]. split; [intros ? []|]. now left.
  - cbn [sup_scan fold_left].
    set (sup' := if xgt (min_scan Xi Y PInf) sup
                 then min_scan Xi Y PInf else sup).
    destruct (IH sup') as (Hle & Hall & Hin). fold (sup_scan X Y sup').
    assert (Hstep : xle sup sup' /\ xle (min_scan Xi Y PInf) sup').
    { unfold sup', xgt. destruct (xlt sup (min_scan Xi Y PInf)) eqn:E.
      - split; [apply xlt_true_xle, E | apply xle_refl].
      - split; [apply xle_refl | apply xlt_false_xle, E]. }
    destruct Hstep as [Hs1 Hs2].
    split; [eapply xle_trans; eassumption|].
    split.
    + intros Xj [<- | HIn]; [eapply xle_trans; eassumption | apply Hall, HIn].
    + destruct Hin as [Heq | (Xj & HIn & Heq)].
      * rewrite Heq. unfold sup'.
        destruct (xgt (min_scan Xi Y PInf) sup); [right | now left].
        exists Xi. split; [now left | reflexivity].
      * right. exists Xj. split; [now right | exact Heq].
Qed.

(** ** Symmetry *)

(** C5.  For all non-empty point sets [X], [Y] of one dimension [d],
    [hausdorff(X, Y)] equals [hausdorff(Y, X)]. *)
Theorem C5_hausdorff_symmetric (d : nat) (X Y : list (list R)) :
  X <> [] -> Y <> [] -> matrix d X -> matrix d Y ->
  hausdorff_python X Y = hausdorff_python Y X.
Proof.
  intros _ _ HX HY.
  rewrite (hausdorff_python_matrix d X Y HX HY).
  rewrite (hausdorff_python_matrix d Y X HY HX).
  f_equal. apply py_max_comm.
Qed.

Lemma C5_hausdorff_symmetric_witness :
  hausdorff_python [[0; 0; 0]; [10; 10; 10]] [[1; 2; 3]]
  = hausdorff_python [[1; 2; 3]] [[0; 0; 0]; [10; 10; 10]].
Proof.
  apply (C5_hausdorff_symmetric 3); try discriminate; repeat constructor.
Defined.

(** ** The nearest-neighbour distance is the minimum *)



(** ** Self-distance and non-negativity *)

Lemma min_scan_nonneg (x Yi : list R) (Y : list (list R)) :
  exists r, min_scan x (Yi :: Y) PInf = Fin r /\ 0 <= r.
Proof.
  destruct (min_scan_attained x Yi Y) as (Yj & _ & H).
  exists (manhattan x Yj). split; [exact H | apply manhattan_nonneg].
Qed.

Lemma min_scan_member (x : list R) (Y : list (list R)) :
  In x Y -> min_scan x Y PInf = Fin 0.
Proof.
  intros HIn. destruct Y as [|Yi Y]; [destruct HIn|].
  destruct (min_scan_nonneg x Yi Y) as (r & Hr & Hpos).
  destruct (min_scan_spec x (Yi :: Y) PInf) as (_ & Hall & _).
  specialize (Hall x HIn). rewrite Hr, manhattan_self in Hall. simpl in Hall.
  rewrite Hr. f_equal. lra.
Qed.

Lemma sup_scan_nonneg (Xi Yi : list R) (X Y : list (list R)) :
  exists r, sup_scan (Xi :: X) (Yi :: Y) (Fin (-1)) = Fin r /\ 0 <= r.
Proof.
  destruct (sup_scan_spec (Xi :: X) (Yi :: Y) (Fin (-1))) as (_ & Hall & Hin).
  specialize (Hall Xi (or_introl eq_refl)).
  destruct (min_scan_nonneg Xi Yi Y) as (r0 & Hr0 & Hpos0).
  rewrite Hr0 in Hall.
  destruct Hin as [Heq | (Xj & _ & Heq)].
  - rewrite Heq in Hall. simpl in Hall. lra.
  - destruct (min_scan_nonneg Xj Yi Y) as (r & Hr & Hpos).
    exists r. split; [rewrite Heq; exact Hr | exact Hpos].
Qed.

Lemma sup_scan_self (Xi : list R) (X : list (list R)) :
  sup_scan (Xi :: X) (Xi :: X) (Fin (-1)) = Fin 0.
Proof.
  destruct (sup_scan_nonneg Xi Xi X X) as (r & Hr & Hpos).
  destruct (sup_scan_spec (Xi :: X) (Xi :: X) (Fin (-1))) as (_ & _ & Hin).
  destruct Hin as [Heq | (Xj & HIn & Heq)].
  - rewrite Heq in Hr. inversion Hr. lra.
  - rewrite Heq. apply min_scan_member, HIn.
Qed.

(** C8.  For a non-empty point set [X], [hausdorff(X, X)] is [0]; for
    non-empty point sets [X], [Y] of one dimension the result is a finite
    number that is at least [0]. *)
Theorem C8_self_distance_and_nonneg (d : nat) (X Y : list (list R)) :
  X <> [] -> Y <> [] -> matrix d X -> matrix d Y ->
  hausdorff_python X X = Ok (Fin 0)
  /\ exists r, hausdorff_python X Y = Ok (Fin r) /\ 0 <= r.
Proof.
  intros HXne HYne HX HY.
  destruct X as [|Xi X]; [contradiction|].
  destruct Y as [|Yi Y]; [contradiction|].
  split.
  - rewrite (hausdorff_python_matrix d _ _ HX HX), sup_scan_self.
    unfold py_max, xgt, xlt. eval_Rltb. reflexivity.
  - rewrite (hausdorff_python_matrix d _ _ HX HY).
    destruct (sup_scan_nonneg Xi Yi X Y) as (r1 & H1 & Hp1).
    destruct (sup_scan_nonneg Yi Xi Y X) as (r2 & H2 & Hp2).
    rewrite H1, H2. unfold py_max.
    destruct (xgt (Fin r2) (Fin r1)); eauto.
Qed.

Lemma C8_self_distance_and_nonneg_witness :
  hausdorff_python [[0; 0; 0]; [10; 10; 10]] [[0; 0; 0]; [10; 10; 10]]
  = Ok (Fin 0)
  /\ exists r, hausdorff_python [[0; 0; 0]; [10; 10; 10]] [[1; 2; 3]]
               = Ok (Fin r) /\ 0 <= r.
Proof.
  apply (C8_self_distance_and_nonneg 3); try discriminate; repeat constructor.
Defined.

(** ** The store-level evaluator: refinement and frame *)

Lemma set_nth_fresh {A : Type} (h : list A) (a b : A) :
  Store.set_nth (length h) a (h ++ [b]) = h ++ [a].
Proof. induction h as [|c h IH]; simpl; [reflexivity | now rewrite IH]. Qed.

Lemma nth_fresh {A : Type} (h : list A) (b d : A) :
  nth (length h) (h ++ [b]) d = b.
Proof. rewrite app_nth2 by lia. now rewrite Nat.sub_diag. Qed.

Lemma elements_fresh (h : Store.store) (l : list R) :
  Store.elements (h ++ [l]) (Store.mkView (length h) 0 (length l)) = l.
Proof.
  unfold Store.elements. simpl. rewrite nth_fresh. apply firstn_all.
Qed.

(** Allocation and writes to fresh buffers do not change what an existing
    view denotes. *)
Lemma elements_app (h fresh : Store.store) (v : Store.view) :
  (Store.base v < length h)%nat ->
  Store.elements (h ++ fresh) v = Store.elements h v.
Proof. intros H. unfold Store.elements. now rewrite app_nth1. Qed.

Lemma rows_app (h fresh : Store.store) (X : Store.array2) :
  Store.allocated h X -> Store.rows (h ++ fresh) X = Store.rows h X.
Proof.
  intros H. unfold Store.rows. apply map_ext. intros i.
  apply elements_app. exact H.
Qed.

(** The four array operations of the metric, on the stores they meet. *)
Lemma np_subtract_store (x y : Store.view) (h : Store.store) :
  Store.np_subtract x y h =
  match broadcast Rminus (Store.elements h x) (Store.elements h y) with
  | Ok d => (Ok (Store.mkView (length h) 0 (length d)), h ++ [d])
  | Raise e => (Raise e, h)
  end.
Proof.
  unfold Store.np_subtract, Store.bind, Store.load.
  destruct (broadcast Rminus _ _); reflexivity.
Qed.

Lemma np_imul_store (h : Store.store) (d : list R) :
  let r := Store.mkView (length h) 0 (length d) in
  Store.np_imul r r (h ++ [d]) = (Ok tt, h ++ [zip_with Rmult d d]).
Proof.
  intros r. unfold Store.np_imul, Store.bind, Store.load, r.
  rewrite elements_fresh, np_imul_self. simpl.
  unfold Store.write. simpl.
  rewrite nth_fresh, set_nth_fresh, skipn_all, app_nil_r. reflexivity.
Qed.

Lemma np_sqrt_store (h : Store.store) (p : list R) :
  Store.np_sqrt (Store.mkView (length h) 0 (length p)) (h ++ [p])
  = (Ok (Store.mkView (length (h ++ [p])) 0 (length (np_sqrt p))),
     (h ++ [p]) ++ [np_sqrt p]).
Proof.
  unfold Store.np_sqrt, Store.bind, Store.load.
  rewrite elements_fresh. reflexivity.
Qed.

Lemma np_sum_store (h : Store.store) (q : list R) :
  Store.np_sum (Store.mkView (length h) 0 (length q)) (h ++ [q])
  = (Ok (np_sum q), h ++ [q]).
Proof.
  unfold Store.np_sum, Store.bind, Store.load.
  rewrite elements_fresh. reflexivity.
Qed.

(** The store-level metric returns what the value-level metric returns on
    the elements of its arguments; it only appends buffers: the difference
    array, squared in place, and the array of square roots. *)
Lemma metric_python_refines (x y : Store.view) (h : Store.store) :
  exists fresh,
    Store.metric_python x y h
    = (metric_python (Store.elements h x) (Store.elements h y), h ++ fresh).
Proof.
  unfold Store.metric_python, metric_python, np_subtract.
  unfold Store.bind at 1. rewrite np_subtract_store.
  destruct (broadcast Rminus (Store.elements h x) (Store.elements h y))
    as [d|e]; cbn [bind].
  - unfold Store.bind at 1. rewrite np_imul_store.
    unfold Store.bind at 1.
    replace (length d) with (length (zip_with Rmult d d))
      by (apply zip_with_length; reflexivity).
    rewrite np_sqrt_store, np_sum_store, np_imul_self. cbn [bind].
    exists [zip_with Rmult d d; np_sqrt (zip_with Rmult d d)].
    now rewrite <- app_assoc.
  - exists []. now rewrite app_nil_r.
Qed.

(** A store-level loop whose body, on every store that extends [h],
    returns what a value-level body returns and only appends buffers, does
    the same as a whole. *)
Lemma for_each_refines {S : Type} (h : Store.store) (P : nat -> Prop)
  (sbody : nat -> S -> Store.M S) (pbody : nat -> S -> result S) :
  (forall i s fresh0, P i ->
     exists fresh, sbody i s (h ++ fresh0) = (pbody i s, h ++ fresh)) ->
  forall idx, Forall P idx ->
  forall s fresh0,
    exists fresh,
      Store.for_each idx sbody s (h ++ fresh0)
      = (for_each idx pbody s, h ++ fresh).
Proof.
  intros Hbody idx Hidx.
  induction Hidx as [|i idx Hi _ IH]; intros s fresh0.
  - exists fresh0. reflexivity.
  - cbn [Store.for_each for_each]. unfold Store.bind at 1.
    destruct (Hbody i s fresh0 Hi) as [fresh1 ->].
    destruct (pbody i s) as [s'|e]; cbn [bind].
    + apply IH.
    + exists fresh1. reflexivity.
Qed.

Lemma range_below (m : nat) : Forall (fun i => (i < m)%nat) (range m).
Proof. apply Forall_forall. intros i Hi. apply in_seq in Hi. lia. Qed.

Lemma rows_length (h : Store.store) (X : Store.array2) :
  length (Store.rows h X) = Store.nrows X.
Proof. unfold Store.rows, range. now rewrite length_map, length_seq. Qed.

Lemma getitem_rows (h : Store.store) (X : Store.array2) (i : nat) :
  (i < Store.nrows X)%nat ->
  getitem (Store.rows h X) i
  = Ok (Store.elements h (Store.mkView (Store.data X) (i * Store.ncols X)
                                       (Store.ncols X))).
Proof.
  intros Hi. unfold getitem, Store.rows, range.
  rewrite nth_error_map, nth_error_nth' with (d := O) by (now rewrite length_seq).
  rewrite seq_nth by exact Hi. reflexivity.
Qed.

Lemma row_store (X : Store.array2) (i : nat) (h : Store.store) :
  (i < Store.nrows X)%nat ->
  Store.row X i h
  = (Ok (Store.mkView (Store.data X) (i * Store.ncols X) (Store.ncols X)), h).
Proof.
  intros Hi. unfold Store.row. apply Nat.ltb_lt in Hi. now rewrite Hi.
Qed.

(** The store-level nearest-neighbour scan refines the value-level one. *)
Lemma inf_dist_python_refines (x : Store.view) (Y : Store.array2)
  (h fresh0 : Store.store) :
  (Store.base x < length h)%nat -> Store.allocated h Y ->
  exists fresh,
    Store.inf_dist_python x Y (h ++ fresh0)
    = (inf_dist_python (Store.elements h x) (Store.rows h Y), h ++ fresh).
Proof.
  intros Hx HY. unfold Store.inf_dist_python, inf_dist_python.
  rewrite rows_length.
  apply for_each_refines with (P := fun i => (i < Store.nrows Y)%nat);
    [|apply range_below].
  intros i inf fresh1 Hi.
  unfold Store.bind at 1. rewrite row_store, getitem_rows by exact Hi.
  cbn [bind]. unfold Store.bind at 1.
  destruct (metric_python_refines x
              (Store.mkView (Store.data Y) (i * Store.ncols Y) (Store.ncols Y))
              (h ++ fresh1)) as [fresh2 ->].
  rewrite !elements_app by assumption.
  destruct (metric_python _ _) as [dist|e]; cbn [bind].
  - exists (fresh1 ++ fresh2). rewrite app_assoc.
    destruct (xlt (Fin dist) inf); reflexivity.
  - exists (fresh1 ++ fresh2). now rewrite app_assoc.
Qed.

Lemma sup_loop_refines (X Y : Store.array2) (h fresh0 : Store.store) (sup : xreal) :
  Store.allocated h X -> Store.allocated h Y ->
  exists fresh,
    Store.for_each (range (Store.nrows X))
      (fun i sup1 =>
         Store.bind (Store.row X i) (fun Xi =>
         Store.bind (Store.inf_dist_python Xi Y) (fun inf1 =>
         if xgt inf1 sup1 then Store.ret inf1 else Store.ret sup1)))
      sup (h ++ fresh0)
    = (for_each (range (length (Store.rows h X)))
         (fun i sup1 =>
            Xi <- getitem (Store.rows h X) i ;;
            inf1 <- inf_dist_python Xi (Store.rows h Y) ;;
            if xgt inf1 sup1 then Ok inf1 else Ok sup1)
         sup,
       h ++ fresh).
Proof.
  intros HX HY. rewrite rows_length.
  apply for_each_refines with (P := fun i => (i < Store.nrows X)%nat);
    [|apply range_below].
  intros i s fresh1 Hi.
  unfold Store.bind at 1. rewrite row_store, getitem_rows by exact Hi.
  cbn [bind]. unfold Store.bind at 1.
  destruct (inf_dist_python_refines
              (Store.mkView (Store.data X) (i * Store.ncols X) (Store.ncols X))
              Y h fresh1 HX HY) as [fresh2 ->].
  destruct (inf_dist_python _ _) as [inf1|e]; cbn [bind].
  - exists fresh2. destruct (xgt inf1 s); reflexivity.
  - exists fresh2. reflexivity.
Qed.

(** The store-level evaluator returns what the value-level evaluator
    returns on the rows of its arguments, and only appends buffers. *)
Lemma hausdorff_python_refines (X Y : Store.array2) (h : Store.store) :
  Store.allocated h X -> Store.allocated h Y ->
  exists fresh,
    Store.hausdorff_python X Y h
    = (hausdorff_python (Store.rows h X) (Store.rows h Y), h ++ fresh).
Proof.
  intros HX HY. unfold Store.hausdorff_python, hausdorff_python. cbv zeta.
  unfold Store.bind at 1.
  destruct (sup_loop_refines X Y h [] (Fin (-1)) HX HY) as [fresh1 H1].
  rewrite app_nil_r in H1. rewrite H1. clear H1.
  destruct (for_each (range (length (Store.rows h X))) _ _) as [sup1|e];
    cbn [bind]; [|now exists fresh1].
  unfold Store.bind at 1.
  destruct (sup_loop_refines Y X h fresh1 (Fin (-1)) HY HX) as [fresh2 H2].
  rewrite H2. clear H2.
  destruct (for_each (range (length (Store.rows h Y))) _ _) as [sup2|e];
    cbn [bind]; now exists fresh2.
Qed.

(** The store does record in-place updates of shared memory: squaring a
    row view in place changes the array the view was taken from.  The
    evaluator never does this to its arguments, as shown next. *)
Lemma np_imul_on_row_view_changes_array :
  Store.rows
    (snd (Store.bind (Store.row (Store.mkArray2 0 1 2) 0)
            (fun x => Store.np_imul x x) [[2; 3]]))
    (Store.mkArray2 0 1 2)
  = [[2 * 2; 3 * 3]].
Proof. reflexivity. Qed.

(** C9.  A call of the evaluator on arrays [X] and [Y] that live in the
    store leaves every buffer that existed before the call as it was: the
    final store is the initial one followed by fresh buffers, and [X] and
    [Y] denote the same rows after the call as before.  The in-place
    [ret *= ret] only overwrites the array that [x - y] allocated. *)
Theorem C9_hausdorff_leaves_inputs_unchanged
  (X Y : Store.array2) (h : Store.store) :
  Store.allocated h X -> Store.allocated h Y ->
  exists fresh,
    snd (Store.hausdorff_python X Y h) = h ++ fresh
    /\ fst (Store.hausdorff_python X Y h)
       = hausdorff_python (Store.rows h X) (Store.rows h Y)
    /\ Store.rows (snd (Store.hausdorff_python X Y h)) X = Store.rows h X
    /\ Store.rows (snd (Store.hausdorff_python X Y h)) Y = Store.rows h Y.
Proof.
  intros HX HY.
  destruct (hausdorff_python_refines X Y h HX HY) as [fresh H].
  exists fresh. rewrite H. cbn [fst snd].
  split; [reflexivity|]. split; [reflexivity|].
  split; apply rows_app; assumption.
Qed.

Lemma C9_hausdorff_leaves_inputs_unchanged_witness :
  exists fresh,
    snd (Store.hausdorff_python (Store.mkArray2 0 2 3) (Store.mkArray2 1 1 3)
           [[0; 0; 0; 10; 10; 10]; [0; 0; 0]])
    = [[0; 0; 0; 10; 10; 10]; [0; 0; 0]] ++ fresh
    /\ fst (Store.hausdorff_python (Store.mkArray2 0 2 3) (Store.mkArray2 1 1 3)
              [[0; 0; 0; 10; 10; 10]; [0; 0; 0]])
       = hausdorff_python
           (Store.rows [[0; 0; 0; 10; 10; 10]; [0; 0; 0]] (Store.mkArray2 0 2 3))
           (Store.rows [[0; 0; 0; 10; 10; 10]; [0; 0; 0]] (Store.mkArray2 1 1 3))
    /\ Store.rows
         (snd (Store.hausdorff_python (Store.mkArray2 0 2 3)
                 (Store.mkArray2 1 1 3) [[0; 0; 0; 10; 10; 10]; [0; 0; 0]]))
         (Store.mkArray2 0 2 3)
       = Store.rows [[0; 0; 0; 10; 10; 10]; [0; 0; 0]] (Store.mkArray2 0 2 3)
    /\ Store.rows
         (snd (Store.hausdorff_python (Store.mkArray2 0 2 3)
                 (Store.mkArray2 1 1 3) [[0; 0; 0; 10; 10; 10]; [0; 0; 0]]))
         (Store.mkArray2 1 1 3)
       = Store.rows [[0; 0; 0; 10; 10; 10]; [0; 0; 0]] (Store.mkArray2 1 1 3).
Proof.
  apply (C9_hausdorff_leaves_inputs_unchanged
           (Store.mkArray2 0 2 3) (Store.mkArray2 1 1 3)
           [[0; 0; 0; 10; 10; 10]; [0; 0; 0]]);
    unfold Store.allocated; simpl; lia.
Defined.

(** * Further properties of the notebook's code *)

(** ** The metric as a distance *)

Lemma sum_sqrt_squares (l : list R) :
  np_sum (np_sqrt (zip_with Rmult l l)) = fold_right Rplus 0 (map Rabs l).
Proof.
  rewrite np_sum_fold_right. unfold np_sqrt.
  induction l as [|a l IH]; simpl; [reflexivity|].
  now rewrite IH, sqrt_square_abs.
Qed.

Lemma manhattan_sym (x y : list R) : manhattan x y = manhattan y x.
Proof.
  unfold manhattan. revert y.
  induction x as [|a x IH]; intros [|b y]; simpl; try reflexivity.
  now rewrite IH, Rabs_minus_sym.
Qed.

(** What the metric returns when one point has a single coordinate. *)
Lemma metric_python_stretch_left (a : R) (y : list R) :
  metric_python [a] y = Ok (fold_right Rplus 0 (map (fun b => Rabs (a - b)) y)).
Proof.
  unfold metric_python, np_subtract, broadcast.
  destruct (Nat.eqb (length [a]) (length y)) eqn:E.
  - apply Nat.eqb_eq in E. destruct y as [|b [|b' y]]; try discriminate.
    cbn [bind zip_with]. rewrite np_imul_self. cbn [bind].
    now rewrite sum_sqrt_squares.
  - cbn [bind]. rewrite np_imul_self. cbn [bind].
    now rewrite sum_sqrt_squares, map_map.
Qed.

Lemma metric_python_stretch_right (a : R) (y : list R) :
  metric_python y [a] = Ok (fold_right Rplus 0 (map (fun b => Rabs (b - a)) y)).
Proof.
  unfold metric_python, np_subtract, broadcast.
  destruct (Nat.eqb (length y) (length [a])) eqn:E.
  - apply Nat.eqb_eq in E. destruct y as [|b [|b' y]]; try discriminate.
    cbn [bind zip_with]. rewrite np_imul_self. cbn [bind].
    now rewrite sum_sqrt_squares.
  - destruct y as [|b [|b' y]]; try discriminate.
    + reflexivity.
    + cbn [bind]. rewrite np_imul_self. cbn [bind].
      now rewrite sum_sqrt_squares, map_map.
Qed.

Lemma metric_python_mismatch (x y : list R) :
  length x <> length y -> length x <> 1%nat -> length y <> 1%nat ->
  metric_python x y = Raise ValueError.
Proof.
  intros Hxy Hx Hy. unfold metric_python, np_subtract, broadcast.
  apply Nat.eqb_neq in Hxy. rewrite Hxy.
  destruct x as [|a [|a' x]]; destruct y as [|b [|b' y]];
    simpl in *; try reflexivity; try lia; discriminate.
Qed.

(** The three shapes of a call of the metric. *)
Lemma metric_python_cases (x y : list R) :
  (length x = length y /\ metric_python x y = Ok (manhattan x y))
  \/ (exists a, x = [a] /\ length y <> 1%nat)
  \/ (exists b, y = [b] /\ length x <> 1%nat)
  \/ (length x <> length y /\ length x <> 1%nat /\ length y <> 1%nat
      /\ metric_python x y = Raise ValueError).
Proof.
  destruct (Nat.eq_dec (length x) (length y)) as [E | E].
  - left. split; [exact E | apply metric_python_same, E].
  - destruct (Nat.eq_dec (length x) 1) as [Hx | Hx].
    + right. left. destruct x as [|a [|a' x]]; try discriminate.
      exists a. split; [reflexivity|]. simpl in E. lia.
    + destruct (Nat.eq_dec (length y) 1) as [Hy | Hy].
      * right. right. left. destruct y as [|b [|b' y]]; try discriminate.
        exists b. split; [reflexivity | exact Hx].
      * right. right. right. repeat split; try assumption.
        apply metric_python_mismatch; assumption.
Qed.

Lemma abs_sum_sym (a : R) (y : list R) :
  fold_right Rplus 0 (map (fun b => Rabs (a - b)) y)
  = fold_right Rplus 0 (map (fun b => Rabs (b - a)) y).
Proof.
  induction y as [|b y IH]; simpl; [reflexivity|].
  now rewrite IH, Rabs_minus_sym.
Qed.

Lemma abs_sum_nonneg (f : R -> R) (y : list R) :
  0 <= fold_right Rplus 0 (map (fun b => Rabs (f b)) y).
Proof.
  induction y as [|b y IH]; simpl; [lra|].
  pose proof (Rabs_pos (f b)). lra.
Qed.

(** X2.  The metric is symmetric on all inputs: swapping the two points
    gives the same value, or the same exception, also when a point of one
    coordinate is stretched and when the dimensions do not fit. *)
Theorem X2_metric_symmetric (x y : list R) :
  metric_python x y = metric_python y x.
Proof.
  destruct (metric_python_cases x y)
    as [[E H] | [(a & -> & Hy) | [(b & -> & Hx) | (E & Hx & Hy & H)]]].
  - rewrite H, (metric_python_same y x) by (symmetry; exact E).
    now rewrite manhattan_sym.
  - now rewrite metric_python_stretch_left, metric_python_stretch_right,
      abs_sum_sym.
  - now rewrite metric_python_stretch_left, metric_python_stretch_right,
      abs_sum_sym.
  - rewrite H. symmetry. apply metric_python_mismatch; auto.
Qed.

(** ** The evaluator as the least covering radius *)

Lemma matrix_In (d : nat) (X : list (list R)) (p : list R) :
  matrix d X -> In p X -> length p = d.
Proof. unfold matrix. rewrite Forall_forall. auto. Qed.

Lemma py_max_fin (a b : R) :
  exists c, py_max (Fin a) (Fin b) = Fin c /\ a <= c /\ b <= c
            /\ (c = a \/ c = b).
Proof.
  unfold py_max, xgt, xlt.
  destruct (Rltb a b) eqn:E;
    [apply Rltb_true in E; exists b | apply Rltb_false in E; exists a];
    repeat split; auto; lra.
Qed.

(** The directed supremum over non-empty sets: it bounds the distance of
    every row of [X] to some row of [Y], and for one row of [X] no row of
    [Y] is nearer. *)
Lemma sup_scan_directed (Xi Yi : list R) (X Y : list (list R)) :
  exists s,
    sup_scan (Xi :: X) (Yi :: Y) (Fin (-1)) = Fin s
    /\ 0 <= s
    /\ (forall p, In p (Xi :: X) ->
          exists q, In q (Yi :: Y) /\ manhattan p q <= s)
    /\ (exists p, In p (Xi :: X) /\
          forall q, In q (Yi :: Y) -> s <= manhattan p q).
Proof.
  destruct (sup_scan_nonneg Xi Yi X Y) as (s & Hs & Hpos).
  destruct (sup_scan_spec (Xi :: X) (Yi :: Y) (Fin (-1))) as (_ & Hall & Hin).
  exists s. split; [exact Hs|]. split; [exact Hpos|]. split.
  - intros p Hp. destruct (min_scan_attained p Yi Y) as (q & Hq & Hmin).
    exists q. split; [exact Hq|].
    specialize (Hall p Hp). rewrite Hmin, Hs in Hall. exact Hall.
  - destruct Hin as [Heq | (p & Hp & Heq)].
    + rewrite Hs in Heq. inversion Heq. lra.
    + exists p. split; [exact Hp|]. intros q Hq.
      destruct (min_scan_spec p (Yi :: Y) PInf) as (_ & Hle & _).
      specialize (Hle q Hq). rewrite <- Heq, Hs in Hle. exact Hle.
Qed.

(** On non-empty sets of one dimension the evaluator returns the least
    radius [H] such that every row of either set has a row of the other
    set within [H]. *)
Lemma hausdorff_python_least_cover (d : nat) (X Y : list (list R)) :
  X <> [] -> Y <> [] -> matrix d X -> matrix d Y ->
  exists H,
    hausdorff_python X Y = Ok (Fin H)
    /\ 0 <= H
    /\ covers H X Y /\ covers H Y X
    /\ (forall H', covers H' X Y -> covers H' Y X -> H <= H').
Proof.
  intros HXne HYne HX HY.
  destruct X as [|Xi X]; [contradiction|].
  destruct Y as [|Yi Y]; [contradiction|].
  destruct (sup_scan_directed Xi Yi X Y) as (s1 & Hs1 & Hp1 & Hc1 & Ha1).
  destruct (sup_scan_directed Yi Xi Y X) as (s2 & Hs2 & Hp2 & Hc2 & Ha2).
  destruct (py_max_fin s1 s2) as (H & HH & H1 & H2 & Hor).
  assert (Hmetric : forall p q, In p (Xi :: X) -> In q (Yi :: Y) ->
            metric_python p q = Ok (manhattan p q)
            /\ metric_python q p = Ok (manhattan q p)).
  { intros p q Hp Hq.
    pose proof (matrix_In d _ p HX Hp). pose proof (matrix_In d _ q HY Hq).
    split; apply metric_python_same; congruence. }
  exists H. split.
  { rewrite (hausdorff_python_matrix d _ _ HX HY), Hs1, Hs2. now f_equal. }
  split; [lra|]. split; [|split].
  - intros p Hp. destruct (Hc1 p Hp) as (q & Hq & Hle).
    exists q, (manhattan p q).
    split; [exact Hq|]. split; [exact (proj1 (Hmetric p q Hp Hq)) | lra].
  - intros q Hq. destruct (Hc2 q Hq) as (p & Hp & Hle).
    exists p, (manhattan q p).
    split; [exact Hp|]. split; [exact (proj2 (Hmetric p q Hp Hq)) | lra].
  - intros H' Hcov1 Hcov2.
    assert (G1 : s1 <= H').
    { destruct Ha1 as (p & Hp & Hmin).
      destruct (Hcov1 p Hp) as (q & v & Hq & Hv & Hle).
      destruct (Hmetric p q Hp Hq) as [Hm _]. rewrite Hm in Hv.
      inversion Hv. specialize (Hmin q Hq). lra. }
    assert (G2 : s2 <= H').
    { destruct Ha2 as (q & Hq & Hmin).
      destruct (Hcov2 q Hq) as (p & v & Hp & Hv & Hle).
      destruct (Hmetric p q Hp Hq) as [_ Hm]. rewrite Hm in Hv.
      inversion Hv. specialize (Hmin p Hp). lra. }
    destruct Hor; lra.
Qed.



Lemma same_points_nonempty (X X' : list (list R)) :
  same_points X X' -> X <> [] -> X' <> [].
Proof.
  intros HS HX. destruct X as [|p X]; [contradiction|].
  intros ->. apply (HS p). now left.
Qed.

Lemma same_points_matrix (d : nat) (X X' : list (list R)) :
  same_points X X' -> matrix d X -> matrix d X'.
Proof.
  unfold matrix. rewrite !Forall_forall. intros HS HX p Hp.
  apply HX, HS, Hp.
Qed.

Lemma covers_same_points (H : R) (X X' Y Y' : list (list R)) :
  same_points X X' -> same_points Y Y' -> covers H X Y -> covers H X' Y'.
Proof.
  intros HSX HSY Hc p Hp. apply HSX in Hp.
  destruct (Hc p Hp) as (q & v & Hq & Hv & Hle).
  exists q, v. split; [apply HSY, Hq | auto].
Qed.

(** X6.  The result depends only on the two sets of points: reordering or
    repeating rows of [X] or of [Y] does not change it. *)
Theorem X6_hausdorff_depends_on_sets (d : nat) (X X' Y Y' : list (list R)) :
  X <> [] -> Y <> [] -> matrix d X -> matrix d Y ->
  same_points X X' -> same_points Y Y' ->
  hausdorff_python X Y = hausdorff_python X' Y'.
Proof.
  intros HXne HYne HX HY HSX HSY.
  assert (HSX' : same_points X' X) by (intros p; symmetry; apply HSX).
  assert (HSY' : same_points Y' Y) by (intros p; symmetry; apply HSY).
  destruct (hausdorff_python_least_cover d X Y HXne HYne HX HY)
    as (H & -> & _ & Hc1 & Hc2 & Hleast).
  destruct (hausdorff_python_least_cover d X' Y'
              (same_points_nonempty _ _ HSX HXne)
              (same_points_nonempty _ _ HSY HYne)
              (same_points_matrix d _ _ HSX HX)
              (same_points_matrix d _ _ HSY HY))
    as (H' & -> & _ & Hc1' & Hc2' & Hleast').
  do 2 f_equal. apply Rle_antisym.
  - apply Hleast; eapply covers_same_points; eassumption.
  - apply Hleast'; eapply covers_same_points; eassumption.
Qed.

Lemma X6_hausdorff_depends_on_sets_witness :
  hausdorff_python [[0; 0]; [3; 4]] [[1; 1]]
  = hausdorff_python [[3; 4]; [0; 0]; [3; 4]] [[1; 1]; [1; 1]].
Proof.
  apply (X6_hausdorff_depends_on_sets 2).
  - discriminate.
  - discriminate.
  - repeat constructor.
  - repeat constructor.
  - intros p. simpl. tauto.
  - intros p. simpl. tauto.
Defined.

(** X7.  On non-empty point sets of one dimension the result is [0]
    whenever the two arrays hold the same set of points, in whatever order
    and with whatever repetitions. *)
Theorem X7_hausdorff_zero_on_same_points (d : nat) (X Y : list (list R)) :
  X <> [] -> Y <> [] -> matrix d X -> matrix d Y ->
  same_points X Y -> hausdorff_python X Y = Ok (Fin 0).
Proof.
  intros HXne HYne HX HY HS.
  destruct (hausdorff_python_least_cover d X Y HXne HYne HX HY)
    as (H & Hval & Hpos & Hc1 & Hc2 & Hleast).
  rewrite Hval. do 2 f_equal. apply Rle_antisym; [|exact Hpos].
  apply Hleast.
  - intros p Hp. exists p, 0. split; [apply HS, Hp|].
    split; [|lra]. rewrite metric_python_same by reflexivity.
    now rewrite manhattan_self.
  - intros p Hp. exists p, 0. split; [apply HS, Hp|].
    split; [|lra]. rewrite metric_python_same by reflexivity.
    now rewrite manhattan_self.
Qed.

Lemma X7_hausdorff_zero_on_same_points_witness :
  hausdorff_python [[0; 0]; [3; 4]] [[3; 4]; [0; 0]; [3; 4]] = Ok (Fin 0).
Proof.
  apply (X7_hausdorff_zero_on_same_points 2).
  - discriminate.
  - discriminate.
  - repeat constructor.
  - repeat constructor.
  - intros p. simpl. tauto.
Defined.

(** ** Dimensions that do not fit, and dimension one *)

(** X9.  When the first rows of [X] and [Y] have different dimensions and
    neither has dimension 1, the evaluator raises NumPy's broadcast
    [ValueError] at its very first call of the metric, whatever the other
    rows are; so does the decorated variant. *)
Theorem X9_hausdorff_mismatch_raises
  (Xi Yj : list R) (X Y : list (list R)) :
  length Xi <> length Yj -> length Xi <> 1%nat -> length Yj <> 1%nat ->
  hausdorff_python (Xi :: X) (Yj :: Y) = Raise ValueError
  /\ hausdorff_numba (Xi :: X) (Yj :: Y) = Raise ValueError.
Proof.
  intros Hne Hx Hy.
  assert (G : hausdorff_python (Xi :: X) (Yj :: Y) = Raise ValueError).
  { rewrite hausdorff_python_fold. cbn [foldM]. unfold sup_step at 1.
    rewrite inf_dist_python_fold. cbn [foldM]. unfold inf_step at 1.
    rewrite (metric_python_mismatch Xi Yj Hne Hx Hy). reflexivity. }
  split; exact G.
Qed.

Lemma X9_hausdorff_mismatch_raises_witness :
  hausdorff_python [[0; 0]; [1; 1]] [[0; 0; 0]; [2; 2; 2]] = Raise ValueError
  /\ hausdorff_numba [[0; 0]; [1; 1]] [[0; 0; 0]; [2; 2; 2]] = Raise ValueError.
Proof.
  apply (X9_hausdorff_mismatch_raises [0; 0] [0; 0; 0]); simpl; lia.
Defined.

Lemma manhattan_repeat_left (a : R) (y : list R) :
  manhattan (repeat a (length y)) y
  = fold_right Rplus 0 (map (fun b => Rabs (a - b)) y).
Proof.
  unfold manhattan. induction y as [|b y IH]; simpl; [reflexivity|].
  now rewrite IH.
Qed.

Lemma manhattan_repeat_right (a : R) (y : list R) :
  manhattan y (repeat a (length y))
  = fold_right Rplus 0 (map (fun b => Rabs (b - a)) y).
Proof.
  unfold manhattan. induction y as [|b y IH]; simpl; [reflexivity|].
  now rewrite IH.
Qed.

Lemma metric_python_stretch_eq (d : nat) (p y : list R) :
  length p = 1%nat -> length y = d ->
  metric_python p y = metric_python (stretch d p) y
  /\ metric_python y p = metric_python y (stretch d p).
Proof.
  intros Hp Hy. destruct p as [|a [|a' p]]; try discriminate.
  unfold stretch. cbn [hd]. subst d. split.
  - rewrite metric_python_stretch_left.
    rewrite metric_python_same by (now rewrite repeat_length).
    now rewrite manhattan_repeat_left.
  - rewrite metric_python_stretch_right.
    rewrite metric_python_same by (now rewrite repeat_length).
    now rewrite manhattan_repeat_right.
Qed.

Lemma foldM_ext {A S : Type} (f g : A -> S -> result S) (l : list A) :
  (forall a s, In a l -> f a s = g a s) ->
  forall s, foldM f l s = foldM g l s.
Proof.
  induction l as [|a l IH]; intros H s; [reflexivity|].
  cbn [foldM]. rewrite (H a s) by now left.
  destruct (g a s); cbn [bind]; [|reflexivity].
  apply IH. intros b t Hb. apply H. now right.
Qed.

Lemma foldM_map {A B S : Type} (h : A -> B) (f : B -> S -> result S)
  (l : list A) (s : S) :
  foldM f (map h l) s = foldM (fun a => f (h a)) l s.
Proof.
  revert s. induction l as [|a l IH]; intros s; [reflexivity|].
  cbn [foldM map]. destruct (f (h a) s); cbn [bind]; [apply IH | reflexivity].
Qed.

Lemma inf_dist_python_stretch (d : nat) (p : list R) (Y : list (list R)) :
  length p = 1%nat -> matrix d Y ->
  inf_dist_python p Y = inf_dist_python (stretch d p) Y.
Proof.
  intros Hp HY. rewrite !inf_dist_python_fold. apply foldM_ext.
  intros q s Hq. unfold inf_step.
  now rewrite (proj1 (metric_python_stretch_eq d p q Hp (matrix_In d Y q HY Hq))).
Qed.

Lemma inf_dist_python_stretch_set (d : nat) (q : list R) (X : list (list R)) :
  length q = d -> matrix 1 X ->
  inf_dist_python q X = inf_dist_python q (map (stretch d) X).
Proof.
  intros Hq HX. rewrite !inf_dist_python_fold, foldM_map. apply foldM_ext.
  intros p s Hp. unfold inf_step.
  now rewrite (proj2 (metric_python_stretch_eq d p q (matrix_In 1 X p HX Hp) Hq)).
Qed.

(** X10.  A set [X] of points with a single coordinate is accepted against
    a set [Y] of any dimension [d]: nothing is raised for the mismatch,
    and the result is the one for the points of [X] with their coordinate
    repeated [d] times. *)
Theorem X10_hausdorff_stretches_dimension_one
  (d : nat) (X Y : list (list R)) :
  matrix 1 X -> matrix d Y ->
  hausdorff_python X Y = hausdorff_python (map (stretch d) X) Y
  /\ hausdorff_python Y X = hausdorff_python Y (map (stretch d) X).
Proof.
  intros HX HY.
  assert (G1 : forall s, foldM (sup_step Y) X s
                         = foldM (sup_step Y) (map (stretch d) X) s).
  { intros s. rewrite foldM_map. apply foldM_ext. intros p t Hp.
    unfold sup_step.
    now rewrite (inf_dist_python_stretch d p Y (matrix_In 1 X p HX Hp) HY). }
  assert (G2 : forall s, foldM (sup_step X) Y s
                         = foldM (sup_step (map (stretch d) X)) Y s).
  { intros s. apply foldM_ext. intros q t Hq. unfold sup_step.
    now rewrite (inf_dist_python_stretch_set d q X (matrix_In d Y q HY Hq) HX). }
  rewrite !hausdorff_python_fold. split.
  - rewrite G1. destruct (foldM (sup_step Y) _ _); cbn [bind]; [|reflexivity].
    now rewrite G2.
  - rewrite G2. destruct (foldM (sup_step (map _ X)) _ _); cbn [bind];
      [|reflexivity].
    now rewrite G1.
Qed.

Lemma X10_hausdorff_stretches_dimension_one_witness :
  hausdorff_python [[5]; [7]] [[1; 2; 3]]
  = hausdorff_python (map (stretch 3) [[5]; [7]]) [[1; 2; 3]]
  /\ hausdorff_python [[1; 2; 3]] [[5]; [7]]
     = hausdorff_python [[1; 2; 3]] (map (stretch 3) [[5]; [7]]).
Proof.
  apply (X10_hausdorff_stretches_dimension_one 3); repeat constructor.
Defined.

(** ** Scans compose *)

Lemma xmin_assoc (a b c : xreal) : xmin (xmin a b) c = xmin a (xmin b c).
Proof.
  unfold xmin, xlt.
  destruct a as [a|], b as [b|], c as [c|]; try reflexivity;
    decide_Rltb; try reflexivity; try lra; f_equal; lra.
Qed.

Lemma xmin_PInf_left (a : xreal) : xmin PInf a = a.
Proof. destruct a; reflexivity. Qed.

Lemma min_scan_from (x : list R) (Y : list (list R)) (inf : xreal) :
  min_scan x Y inf = xmin inf (min_scan x Y PInf).
Proof.
  revert inf. induction Y as [|Yi Y IH]; intros inf.
  - destruct inf; reflexivity.
  - cbn [min_scan fold_left].
    change (fold_left _ Y ?s) with (min_scan x Y s).
    rewrite IH. rewrite (IH (if xlt _ PInf then _ else _)).
    change (if xlt (Fin (manhattan x Yi)) inf then Fin (manhattan x Yi) else inf)
      with (xmin inf (Fin (manhattan x Yi))).
    change (if xlt (Fin (manhattan x Yi)) PInf then Fin (manhattan x Yi) else PInf)
      with (xmin PInf (Fin (manhattan x Yi))).
    now rewrite xmin_PInf_left, xmin_assoc.
Qed.

Lemma matrix_app (d : nat) (Y1 Y2 : list (list R)) :
  matrix d (Y1 ++ Y2) <-> matrix d Y1 /\ matrix d Y2.
Proof. unfold matrix. apply Forall_app. Qed.

(** X11.  The nearest-neighbour distance to the rows of two arrays put
    together is the smaller of the two nearest-neighbour distances; with
    an empty array on one side it is the other distance. *)
Theorem X11_inf_dist_of_concatenation (x : list R) (Y1 Y2 : list (list R)) :
  matrix (length x) Y1 -> matrix (length x) Y2 ->
  exists a b,
    inf_dist_python x Y1 = Ok a /\ inf_dist_python x Y2 = Ok b
    /\ inf_dist_python x (Y1 ++ Y2) = Ok (xmin a b)
    /\ inf_dist_python x (Y1 ++ []) = Ok a.
Proof.
  intros H1 H2.
  exists (min_scan x Y1 PInf), (min_scan x Y2 PInf).
  split; [apply inf_dist_python_matrix, H1|].
  split; [apply inf_dist_python_matrix, H2|].
  split.
  - rewrite inf_dist_python_matrix by (apply matrix_app; split; assumption).
    f_equal. unfold min_scan at 1. rewrite fold_left_app.
    change (fold_left _ Y1 PInf) with (min_scan x Y1 PInf).
    change (fold_left _ Y2 ?s) with (min_scan x Y2 s).
    apply min_scan_from.
  - rewrite app_nil_r. apply inf_dist_python_matrix, H1.
Qed.

Lemma X11_inf_dist_of_concatenation_witness :
  exists a b,
    inf_dist_python [0; 0] [[3; 4]] = Ok a
    /\ inf_dist_python [0; 0] [[1; 1]; [5; 5]] = Ok b
    /\ inf_dist_python [0; 0] ([[3; 4]] ++ [[1; 1]; [5; 5]]) = Ok (xmin a b)
    /\ inf_dist_python [0; 0] ([[3; 4]] ++ []) = Ok a.
Proof.
  apply (X11_inf_dist_of_concatenation [0; 0] [[3; 4]] [[1; 1]; [5; 5]]);
    repeat constructor.
Defined.

(** ** The evaluator on binary64 numbers *)

Lemma SFcompare_refl (x : spec_float) :
  x <> S754_nan -> SFcompare x x = Some Eq.
Proof.
  destruct x as [s| s | |s m e]; intros H; try reflexivity;
    try (destruct s; reflexivity); [contradiction|].
  simpl. rewrite Z.compare_refl.
  change (Pos.compare_cont Eq m m) with (Pos.compare m m).
  rewrite Pos.compare_refl. destruct s; reflexivity.
Qed.

Lemma SFcompare_not_nan (x y : spec_float) (c : comparison) :
  SFcompare x y = Some c -> x <> S754_nan /\ y <> S754_nan.
Proof.
  destruct x, y; simpl; intros H; try discriminate; split; discriminate.
Qed.

Lemma SFcompare_antisym (x y : spec_float) :
  SFcompare y x = option_map CompOpp (SFcompare x y).
Proof.
  destruct x as [sx| sx | |sx mx ex], y as [sy| sy | |sy my ey]; simpl;
    try reflexivity;
    try (destruct sx; reflexivity); try (destruct sy; reflexivity);
    try (destruct sx, sy; reflexivity).
  change (Pos.compare_cont Eq my mx) with (Pos.compare my mx).
  change (Pos.compare_cont Eq mx my) with (Pos.compare mx my).
  rewrite (Z.compare_antisym ex ey), (Pos.compare_antisym mx my).
  destruct sx, sy; try reflexivity;
    destruct (Z.compare ex ey); simpl; try reflexivity;
    destruct (Pos.compare mx my); reflexivity.
Qed.

Lemma is_number_spec (a : float) : is_number a <-> Prim2SF a <> S754_nan.
Proof.
  unfold is_number. rewrite FloatAxioms.eqb_spec. unfold SFeqb. split.
  - intros H E. rewrite E in H. discriminate.
  - intros H. now rewrite SFcompare_refl.
Qed.

Lemma ltb_numbers (a b : float) :
  PrimFloat.ltb a b = true -> is_number a /\ is_number b.
Proof.
  rewrite FloatAxioms.ltb_spec. unfold SFltb.
  destruct (SFcompare (Prim2SF a) (Prim2SF b)) as [c|] eqn:E; [|discriminate].
  intros _. apply SFcompare_not_nan in E. now rewrite !is_number_spec.
Qed.

(** On numbers, Python's [max] gives equal values in either order. *)
Lemma binary64_py_max_comm (a b : float) :
  is_number a -> is_number b ->
  PrimFloat.eqb (Binary64.py_max a b) (Binary64.py_max b a) = true.
Proof.
  intros Ha Hb. unfold Binary64.py_max, Binary64.xgt, Binary64.xlt.
  destruct (PrimFloat.ltb a b) eqn:Eab; destruct (PrimFloat.ltb b a) eqn:Eba;
    try assumption.
  - rewrite FloatAxioms.ltb_spec in Eab, Eba. unfold SFltb in Eab, Eba.
    rewrite (SFcompare_antisym (Prim2SF a) (Prim2SF b)) in Eba.
    destruct (SFcompare (Prim2SF a) (Prim2SF b)) as [[ | | ]|];
      simpl in Eba; discriminate.
  - rewrite FloatAxioms.ltb_spec in Eab, Eba. unfold SFltb in Eab, Eba.
    rewrite FloatAxioms.eqb_spec. unfold SFeqb.
    rewrite (SFcompare_antisym (Prim2SF a) (Prim2SF b)) in Eba.
    apply is_number_spec in Ha. apply is_number_spec in Hb.
    destruct (SFcompare (Prim2SF a) (Prim2SF b)) as [[ | | ]|] eqn:E;
      simpl in Eba; try discriminate; try reflexivity.
    exfalso. destruct (Prim2SF a), (Prim2SF b); simpl in E;
      try discriminate; contradiction.
Qed.

(** A loop keeps what every step of its body keeps. *)
Lemma for_each_invariant {S : Type} (P : S -> Prop) (idx : list nat)
  (body : nat -> S -> result S) :
  (forall i s s', P s -> body i s = Ok s' -> P s') ->
  forall s s', P s -> for_each idx body s = Ok s' -> P s'.
Proof.
  intros Hbody. induction idx as [|i idx IH]; intros s s' Hs H.
  - inversion H. now subst.
  - cbn [for_each] in H. destruct (body i s) as [s1|e] eqn:E; [|discriminate].
    cbn [bind] in H. apply (IH s1 s'); [|exact H]. apply (Hbody i s); assumption.
Qed.

Lemma binary64_inf_dist_number (x : list float) (Y : list (list float))
  (r : float) :
  Binary64.inf_dist_python x Y = Ok r -> is_number r.
Proof.
  unfold Binary64.inf_dist_python. cbv zeta.
  apply for_each_invariant; [|reflexivity].
  intros i s s' Hs H.
  destruct (getitem Y i) as [Yi|e]; [|discriminate]. cbn [bind] in H.
  destruct (Binary64.metric_python x Yi) as [dist|e]; [|discriminate].
  cbn [bind] in H. destruct (Binary64.xlt dist s) eqn:E; inversion H; subst.
  - apply (ltb_numbers _ _ E).
  - exact Hs.
Qed.

Lemma binary64_sup_loop_number (X Y : list (list float)) (r : float) :
  binary64_sup_loop X Y = Ok r -> is_number r.
Proof.
  unfold binary64_sup_loop.
  apply for_each_invariant; [|reflexivity].
  intros i s s' Hs H.
  destruct (getitem X i) as [Xi|e]; [|discriminate]. cbn [bind] in H.
  destruct (Binary64.inf_dist_python Xi Y) as [inf1|e] eqn:E; [|discriminate].
  cbn [bind] in H. destruct (Binary64.xgt inf1 s); inversion H; subst.
  - apply (binary64_inf_dist_number _ _ _ E).
  - exact Hs.
Qed.

Lemma binary64_hausdorff_loops (X Y : list (list float)) :
  Binary64.hausdorff_python X Y =
  (sup1 <- binary64_sup_loop X Y ;;
   sup2 <- binary64_sup_loop Y X ;;
   Ok (Binary64.py_max sup1 sup2)).
Proof. reflexivity. Qed.

(** X12.  On binary64 numbers the evaluator never returns [nan], whatever
    the coordinates are (infinities and [nan] included): a [nan] distance
    fails both comparisons and is never taken as minimum or supremum. *)
Theorem X12_binary64_hausdorff_never_nan
  (X Y : list (list float)) (r : float) :
  Binary64.hausdorff_python X Y = Ok r -> PrimFloat.eqb r r = true.
Proof.
  rewrite binary64_hausdorff_loops. intros H.
  destruct (binary64_sup_loop X Y) as [s1|e] eqn:E1; [|discriminate].
  destruct (binary64_sup_loop Y X) as [s2|e] eqn:E2; [|discriminate].
  cbn [bind] in H. inversion H; subst r.
  apply binary64_sup_loop_number in E1. apply binary64_sup_loop_number in E2.
  unfold Binary64.py_max. destruct (Binary64.xgt s2 s1); assumption.
Qed.

Lemma X12_binary64_hausdorff_never_nan_witness :
  PrimFloat.eqb PrimFloat.infinity PrimFloat.infinity = true.
Proof.
  apply (X12_binary64_hausdorff_never_nan
           [[PrimFloat.nan; 1%float]] [[0%float; PrimFloat.infinity]]).
  vm_compute. reflexivity.
Defined.

(** X13.  On binary64 numbers the evaluator is symmetric for all inputs:
    when [hausdorff(X, Y)] and [hausdorff(Y, X)] both return, the two
    values compare equal with [==]. *)
Theorem X13_binary64_hausdorff_symmetric
  (X Y : list (list float)) (a b : float) :
  Binary64.hausdorff_python X Y = Ok a ->
  Binary64.hausdorff_python Y X = Ok b ->
  PrimFloat.eqb a b = true.
Proof.
  rewrite !binary64_hausdorff_loops. intros Ha Hb.
  destruct (binary64_sup_loop X Y) as [s1|e] eqn:E1; [|discriminate].
  destruct (binary64_sup_loop Y X) as [s2|e] eqn:E2; [|discriminate].
  cbn [bind] in Ha, Hb. inversion Ha; inversion Hb; subst a b.
  apply binary64_py_max_comm; eapply binary64_sup_loop_number; eassumption.
Qed.

Lemma X13_binary64_hausdorff_symmetric_witness :
  PrimFloat.eqb 30%float 30%float = true.
Proof.
  apply (X13_binary64_hausdorff_symmetric
           [[0; 0; 0]; [10; 10; 10]]%float [[0; 0; 0]]%float);
    vm_compute; reflexivity.
Defined.

(** ** Temporary arrays *)

Lemma metric_python_store (x y : Store.view) (h : Store.store) :
  Store.metric_python x y h =
  match broadcast Rminus (Store.elements h x) (Store.elements h y) with
  | Ok d => (Ok (np_sum (np_sqrt (zip_with Rmult d d))),
             h ++ [zip_with Rmult d d; np_sqrt (zip_with Rmult d d)])
  | Raise e => (Raise e, h)
  end.
Proof.
  unfold Store.metric_python.
  unfold Store.bind at 1. rewrite np_subtract_store.
  destruct (broadcast Rminus (Store.elements h x) (Store.elements h y))
    as [d|e]; [|reflexivity].
  unfold Store.bind at 1. rewrite np_imul_store.
  unfold Store.bind at 1.
  replace (length d) with (length (zip_with Rmult d d))
    by (apply zip_with_length; reflexivity).
  rewrite np_sqrt_store, np_sum_store. now rewrite <- app_assoc.
Qed.

(** A call of the store-level metric that returns has created two arrays;
    one that raises has created none. *)
Lemma metric_python_allocates (x y : Store.view) (h : Store.store) :
  (exists v a b, Store.metric_python x y h = (Ok v, h ++ [a; b]))
  \/ (exists e, Store.metric_python x y h = (Raise e, h)).
Proof.
  rewrite metric_python_store.
  destruct (broadcast Rminus (Store.elements h x) (Store.elements h y))
    as [d|e]; [left | right]; eauto.
Qed.

Lemma for_each_allocates {S : Type} (k : nat) (sbody : nat -> S -> Store.M S) :
  (forall i s h s' h',
      sbody i s h = (Ok s', h') -> length h' = (length h + k)%nat) ->
  forall idx s h s' h',
    Store.for_each idx sbody s h = (Ok s', h') ->
    length h' = (length h + k * length idx)%nat.
Proof.
  intros Hbody. induction idx as [|i idx IH]; intros s h s' h' H.
  - inversion H. subst. simpl. lia.
  - cbn [Store.for_each] in H. unfold Store.bind at 1 in H.
    destruct (sbody i s h) as [[s1|e] h1] eqn:E; [|discriminate].
    apply Hbody in E. apply IH in H. simpl. lia.
Qed.

Lemma range_length (m : nat) : length (range m) = m.
Proof. apply length_seq. Qed.

Lemma inf_dist_python_allocates (x : Store.view) (Y : Store.array2)
  (h h' : Store.store) (r : xreal) :
  Store.inf_dist_python x Y h = (Ok r, h') ->
  length h' = (length h + 2 * Store.nrows Y)%nat.
Proof.
  unfold Store.inf_dist_python. cbv zeta. intros H.
  apply for_each_allocates with (k := 2%nat) in H;
    [now rewrite range_length in H|].
  clear. intros i s h s' h' H.
  unfold Store.bind at 1, Store.row in H.
  destruct (Nat.ltb i (Store.nrows Y)); [|discriminate].
  unfold Store.ret at 1 in H. unfold Store.bind at 1 in H.
  destruct (metric_python_allocates x
              (Store.mkView (Store.data Y) (i * Store.ncols Y) (Store.ncols Y)) h)
    as [(v & a & b & E) | (e & E)]; rewrite E in H; [|discriminate].
  destruct (xlt (Fin v) s); inversion H; subst;
    rewrite length_app; simpl; lia.
Qed.

Lemma sup_loop_allocates (X Y : Store.array2) (h h' : Store.store)
  (sup r : xreal) :
  Store.for_each (range (Store.nrows X))
    (fun i sup1 =>
       Store.bind (Store.row X i) (fun Xi =>
       Store.bind (Store.inf_dist_python Xi Y) (fun inf1 =>
       if xgt inf1 sup1 then Store.ret inf1 else Store.ret sup1)))
    sup h = (Ok r, h') ->
  length h' = (length h + 2 * Store.nrows Y * Store.nrows X)%nat.
Proof.
  intros H.
  apply for_each_allocates with (k := (2 * Store.nrows Y)%nat) in H;
    [now rewrite range_length in H|].
  clear. intros i s h s' h' H.
  unfold Store.bind at 1, Store.row in H.
  destruct (Nat.ltb i (Store.nrows X)); [|discriminate].
  unfold Store.ret at 1 in H. unfold Store.bind at 1 in H.
  destruct (Store.inf_dist_python _ Y h) as [[inf1|e] h1] eqn:E; [|discriminate].
  apply inf_dist_python_allocates in E.
  destruct (xgt inf1 s); inversion H; subst; exact E.
Qed.

(** X14.  A call of the evaluator on arrays of [m] and [n] rows that
    returns a value has created exactly [4 * m * n] temporary arrays: it
    calls the metric [2 * m * n] times, and every call creates the array of
    differences and the array of square roots. *)
Theorem X14_hausdorff_temporaries
  (X Y : Store.array2) (h h' : Store.store) (r : xreal) :
  Store.hausdorff_python X Y h = (Ok r, h') ->
  length h' = (length h + 4 * Store.nrows X * Store.nrows Y)%nat.
Proof.
  unfold Store.hausdorff_python. cbv zeta. intros H.
  unfold Store.bind at 1 in H.
  destruct (Store.for_each (range (Store.nrows X)) _ _ h) as [[s1|e] h1] eqn:E1;
    [|discriminate].
  unfold Store.bind at 1 in H.
  destruct (Store.for_each (range (Store.nrows Y)) _ _ h1) as [[s2|e] h2] eqn:E2;
    [|discriminate].
  apply sup_loop_allocates in E1. apply sup_loop_allocates in E2.
  inversion H; subst. nia.
Qed.

Lemma X14_hausdorff_temporaries_witness :
  length (snd (Store.hausdorff_python (Store.mkArray2 0 2 3)
                 (Store.mkArray2 1 1 3) [[0; 0; 0; 10; 10; 10]; [0; 0; 0]]))
  = (2 + 4 * 2 * 1)%nat.
Proof.
  destruct (hausdorff_python_refines (Store.mkArray2 0 2 3)
              (Store.mkArray2 1 1 3) [[0; 0; 0; 10; 10; 10]; [0; 0; 0]])
    as [fresh E]; [unfold Store.allocated; simpl; lia ..|].
  apply (X14_hausdorff_temporaries (Store.mkArray2 0 2 3)
           (Store.mkArray2 1 1 3) [[0; 0; 0; 10; 10; 10]; [0; 0; 0]]
           _ (Fin 30)).
  rewrite E. cbn [snd]. f_equal. exact hausdorff_scenario_C.
Defined.

(** ** The only exception *)

Lemma broadcast_raises {T : Type} (f : T -> T -> T) (x y : list T) (e : exn) :
  broadcast f x y = Raise e -> e = ValueError.
Proof.
  unfold broadcast. destruct (Nat.eqb (length x) (length y)); [discriminate|].
  destruct x as [|a [|a' x]]; destruct y as [|b [|b' y]];
    intros H; inversion H; reflexivity.
Qed.

Lemma metric_python_raises (x y : list R) (e : exn) :
  metric_python x y = Raise e -> e = ValueError.
Proof.
  unfold metric_python, np_subtract. intros H.
  destruct (broadcast Rminus x y) as [d|e'] eqn:E.
  - cbn [bind] in H. rewrite np_imul_self in H. discriminate.
  - cbn [bind] in H. inversion H; subst. apply (broadcast_raises _ _ _ _ E).
Qed.

Lemma foldM_raises {A S : Type} (P : exn -> Prop) (f : A -> S -> result S)
  (l : list A) :
  (forall a s e, f a s = Raise e -> P e) ->
  forall s e, foldM f l s = Raise e -> P e.
Proof.
  intros Hf. induction l as [|a l IH]; intros s e H; [discriminate|].
  cbn [foldM] in H. destruct (f a s) as [s'|e'] eqn:E; cbn [bind] in H.
  - apply (IH s' e H).
  - inversion H; subst. apply (Hf a s e E).
Qed.

Lemma inf_dist_python_raises (x : list R) (Y : list (list R)) (e : exn) :
  inf_dist_python x Y = Raise e -> e = ValueError.
Proof.
  rewrite inf_dist_python_fold.
  apply foldM_raises with (P := fun e => e = ValueError).
  intros q s e' H. unfold inf_step in H.
  destruct (metric_python x q) as [v|e''] eqn:E; cbn [bind] in H.
  - destruct (xlt (Fin v) s); discriminate.
  - inversion H; subst. apply (metric_python_raises _ _ _ E).
Qed.

Lemma sup_step_raises (Y : list (list R)) (p : list R) (s : xreal) (e : exn) :
  sup_step Y p s = Raise e -> e = ValueError.
Proof.
  unfold sup_step. intros H.
  destruct (inf_dist_python p Y) as [v|e'] eqn:E; cbn [bind] in H.
  - destruct (xgt v s); discriminate.
  - inversion H; subst. apply (inf_dist_python_raises _ _ _ E).
Qed.

(** X15.  The only exception the evaluator raises is NumPy's broadcast
    [ValueError]: the row accesses [X[i]] and [Y[i]] are always within
    bounds and never raise [IndexError]. *)
Theorem X15_hausdorff_raises_only_ValueError
  (X Y : list (list R)) (e : exn) :
  hausdorff_python X Y = Raise e -> e = ValueError.
Proof.
  rewrite hausdorff_python_fold. intros H.
  destruct (foldM (sup_step Y) X (Fin (-1))) as [s1|e1] eqn:E1; cbn [bind] in H.
  - destruct (foldM (sup_step X) Y (Fin (-1))) as [s2|e2] eqn:E2;
      cbn [bind] in H; [discriminate|].
    inversion H; subst.
    apply (foldM_raises (fun e => e = ValueError) (sup_step X) Y
             (sup_step_raises X) _ _ E2).
  - inversion H; subst.
    apply (foldM_raises (fun e => e = ValueError) (sup_step Y) X
             (sup_step_raises Y) _ _ E1).
Qed.

Lemma X15_hausdorff_raises_only_ValueError_witness : ValueError = ValueError.
Proof.
  apply (X15_hausdorff_raises_only_ValueError [[0; 0]] [[0; 0; 0]]).
  reflexivity.
Defined.

(** * The size of an object graph *)

Section GetSize.

Import Memmap.

Lemma fold_left_add (l : list nat) (a : nat) :
  fold_left Nat.add l a = (a + list_sum l)%nat.
Proof.
  revert a. induction l as [|n l IH]; intros a; simpl; [lia|].
  rewrite IH. lia.
Qed.

Lemma py_sum_list_sum (l : list nat) : py_sum l = list_sum l.
Proof. unfold py_sum. now rewrite fold_left_add. Qed.

Lemma py_sum_app (l1 l2 : list nat) :
  py_sum (l1 ++ l2) = (py_sum l1 + py_sum l2)%nat.
Proof. now rewrite !py_sum_list_sum, list_sum_app. Qed.

Lemma comprehension_app (f : nat -> option idset -> option (nat * idset))
  (l1 l2 : list nat) (s : idset) :
  comprehension f (l1 ++ l2) s =
  match comprehension f l1 s with
  | None => None
  | Some (ns1, s1) =>
      match comprehension f l2 s1 with
      | None => None
      | Some (ns2, s2) => Some (ns1 ++ ns2, s2)
      end
  end.
Proof.
  revert s. induction l1 as [|v l1 IH]; intros s; simpl.
  - destruct (comprehension f l2 s) as [[ns2 s2]|]; reflexivity.
  - destruct (f v (Some s)) as [[n s1]|]; [|reflexivity].
    rewrite IH. destruct (comprehension f l1 s1) as [[ns1 s1']|]; [|reflexivity].
    destruct (comprehension f l2 s1') as [[ns2 s2]|]; reflexivity.
Qed.

(** The three branches of [get_size] are one traversal of [children]. *)
Lemma get_size_children (fuel : nat) (h : heap) (obj : nat)
  (seen : option idset) :
  get_size (S fuel) h obj seen =
  match nth_error h obj with
  | None => None
  | Some o =>
      let s := match seen with None => empty_set nat | Some s => s end in
      if set_mem Nat.eq_dec obj s then Some (0%nat, s)
      else
        match comprehension (get_size fuel h) (children o)
                (set_add Nat.eq_dec obj s) with
        | None => None
        | Some (ns, s') => Some ((getsizeof o + py_sum ns)%nat, s')
        end
  end.
Proof.
  cbn [get_size]. destruct (nth_error h obj) as [o|]; [|reflexivity].
  cbv zeta. destruct (set_mem Nat.eq_dec obj _); [reflexivity|].
  unfold children. destruct (dict_items o) as [kvs|].
  - rewrite comprehension_app.
    destruct (comprehension _ (map snd kvs) _) as [[vs s1]|]; [|reflexivity].
    destruct (comprehension _ (map fst kvs) s1) as [[ks s2]|]; [|reflexivity].
    rewrite py_sum_app. f_equal. f_equal. lia.
  - destruct (dunder_dict o) as [d|].
    + cbn [comprehension].
      destruct (get_size fuel h d _) as [[n s1]|]; [|reflexivity].
      unfold py_sum. simpl. reflexivity.
    + destruct (iter_items o) as [items|].
      * destruct (negb (is_text o)); [reflexivity|].
        cbn [comprehension]. unfold py_sum. simpl. now rewrite Nat.add_0_r.
      * cbn [comprehension]. unfold py_sum. simpl. now rewrite Nat.add_0_r.
Qed.


Lemma accounted_nil (h : heap) (seen : idset) : accounted h [] seen 0 seen.
Proof.
  exists []. repeat split; try constructor; simpl; try tauto;
    try (intros; contradiction).
Qed.


Lemma total_app (h : heap) (l1 l2 : list nat) :
  total h (l1 ++ l2) = (total h l1 + total h l2)%nat.
Proof. unfold total. now rewrite map_app, list_sum_app. Qed.

(** Two calls in a row on the shared set. *)
Lemma accounted_seq (h : heap) (r1 r2 : list nat) (s s1 s2 : idset)
  (n1 n2 : nat) :
  accounted h r1 s n1 s1 -> accounted h r2 s1 n2 s2 ->
  accounted h (r1 ++ r2) s (n1 + n2) s2.
Proof.
  intros (new1 & Hnd1 & Hdis1 & Hmem1 & Hn1 & Hroot1 & Hreach1 & Hcl1)
         (new2 & Hnd2 & Hdis2 & Hmem2 & Hn2 & Hroot2 & Hreach2 & Hcl2).
  exists (new1 ++ new2). repeat split.
  - apply NoDup_app; [assumption | assumption|].
    intros i Hi1 Hi2. apply (Hdis2 i Hi2). apply Hmem1. now right.
  - intros i Hi Hs. apply in_app_or in Hi. destruct Hi as [Hi | Hi].
    + apply (Hdis1 i Hi Hs).
    + apply (Hdis2 i Hi). apply Hmem1. now left.
  - intros Hi. apply Hmem2 in Hi. destruct Hi as [Hi | Hi].
    + apply Hmem1 in Hi. destruct Hi; [now left | right; apply in_or_app; now left].
    + right. apply in_or_app. now right.
  - intros [Hi | Hi].
    + apply Hmem2. left. apply Hmem1. now left.
    + apply in_app_or in Hi. destruct Hi as [Hi | Hi].
      * apply Hmem2. left. apply Hmem1. now right.
      * apply Hmem2. now right.
  - subst. now rewrite total_app.
  - intros c Hc. apply in_app_or in Hc. destruct Hc as [Hc | Hc].
    + apply Hmem2. left. apply Hroot1, Hc.
    + apply Hroot2, Hc.
  - intros a Ha. apply in_app_or in Ha. destruct Ha as [Ha | Ha].
    + destruct (Hreach1 a Ha) as (c & Hc & Hr). exists c.
      split; [apply in_or_app; now left | exact Hr].
    + destruct (Hreach2 a Ha) as (c & Hc & Hr). exists c.
      split; [apply in_or_app; now right | exact Hr].
  - intros a b Ha Hab. apply in_app_or in Ha. destruct Ha as [Ha | Ha].
    + apply Hmem2. left. apply (Hcl1 a b Ha Hab).
    + apply (Hcl2 a b Ha Hab).
Qed.

(** The call on an object that was not in the set, from the calls on the
    objects it refers to. *)
Lemma accounted_root (h : heap) (obj : nat) (o : object) (seen s' : idset)
  (m : nat) :
  nth_error h obj = Some o -> ~ In obj seen ->
  accounted h (children o) (set_add Nat.eq_dec obj seen) m s' ->
  accounted h [obj] seen (getsizeof o + m) s'.
Proof.
  intros Ho Hnew (new & Hnd & Hdis & Hmem & Hm & Hroot & Hreach & Hcl).
  assert (Hobj : In obj s').
  { apply Hmem. left. apply set_add_iff. now left. }
  exists (obj :: new). repeat split.
  - constructor; [|exact Hnd]. intros Hi. apply (Hdis obj Hi).
    apply set_add_iff. now left.
  - intros i [<- | Hi]; [exact Hnew|].
    intros Hs. apply (Hdis i Hi). apply set_add_iff. now right.
  - intros Hi. apply Hmem in Hi. destruct Hi as [Hi | Hi].
    + apply set_add_iff in Hi. destruct Hi as [-> | Hi];
        [right; now left | now left].
    + right. now right.
  - intros [Hi | [<- | Hi]].
    + apply Hmem. left. apply set_add_iff. now right.
    + exact Hobj.
    + apply Hmem. now right.
  - subst m. change (total h (obj :: new))
      with (size_of h obj + total h new)%nat.
    unfold size_of. now rewrite Ho.
  - intros c [<- | []]. exact Hobj.
  - intros a [<- | Ha].
    + exists obj. split; [now left | apply rt_refl].
    + destruct (Hreach a Ha) as (c & Hc & Hr). exists obj.
      split; [now left|].
      apply rt_trans with c; [|exact Hr].
      apply rt_step. exists o. split; assumption.
  - intros a b [<- | Ha] Hab.
    + destruct Hab as (o' & Ho' & Hb). rewrite Ho in Ho'. inversion Ho'; subst o'.
      apply Hroot, Hb.
    + apply (Hcl a b Ha Hab).
Qed.

Lemma comprehension_accounted (h : heap)
  (f : nat -> option idset -> option (nat * idset)) :
  (forall v s n s', f v (Some s) = Some (n, s') -> accounted h [v] s n s') ->
  forall l s ns s',
    comprehension f l s = Some (ns, s') -> accounted h l s (py_sum ns) s'.
Proof.
  intros Hf. induction l as [|v l IH]; intros s ns s' H.
  - inversion H; subst. apply accounted_nil.
  - cbn [comprehension] in H.
    destruct (f v (Some s)) as [[n s1]|] eqn:E1; [|discriminate].
    destruct (comprehension f l s1) as [[ns1 s2]|] eqn:E2; [|discriminate].
    inversion H; subst.
    change (v :: l) with ([v] ++ l).
    replace (py_sum (n :: ns1)) with (n + py_sum ns1)%nat
      by (rewrite !py_sum_list_sum; reflexivity).
    apply accounted_seq with s1; [apply Hf, E1 | apply IH, E2].
Qed.

(** Every call that returns has done what [accounted] says. *)
Lemma get_size_accounted (h : heap) (fuel : nat) :
  forall obj seen n seen',
    get_size fuel h obj (Some seen) = Some (n, seen') ->
    accounted h [obj] seen n seen'.
Proof.
  induction fuel as [|fuel IH]; intros obj seen n seen' H; [discriminate|].
  rewrite get_size_children in H.
  destruct (nth_error h obj) as [o|] eqn:Ho; [|discriminate].
  cbv zeta in H. destruct (set_mem Nat.eq_dec obj seen) eqn:Hmem.
  - inversion H; subst. apply set_mem_correct1 in Hmem.
    exists []. repeat split; try constructor; simpl; try tauto;
      try (intros; contradiction).
    intros c [<- | []]. exact Hmem.
  - apply set_mem_complete1 in Hmem.
    destruct (comprehension _ (children o) _) as [[ns s']|] eqn:E; [|discriminate].
    inversion H; subst.
    apply (accounted_root h obj o seen seen' (py_sum ns) Ho Hmem).
    apply (comprehension_accounted h (get_size fuel h) IH _ _ _ _ E).
Qed.









(** X16.  A call [get_size(obj, seen)] that returns has counted no object
    twice and no object that was already in [seen]: the set has grown by a
    duplicate-free list of ids that were not in it, and the value returned
    is the total [sys.getsizeof] of exactly these objects ([0] when [obj]
    itself was in [seen]). *)
Theorem X16_get_size_counts_each_object_once
  (h : heap) (fuel obj n : nat) (seen seen' : idset) :
  get_size fuel h obj (Some seen) = Some (n, seen') ->
  exists new,
    NoDup new
    /\ (forall i, In i new -> ~ In i seen)
    /\ (forall i, In i seen' <-> In i seen \/ In i new)
    /\ n = total h new
    /\ (In obj seen -> n = 0%nat /\ seen' = seen).
Proof.
  intros H.
  destruct (get_size_accounted h fuel obj seen n seen' H)
    as (new & Hnd & Hdis & Hmem & Hn & _).
  exists new. split; [exact Hnd|]. split; [exact Hdis|].
  split; [exact Hmem|]. split; [exact Hn|].
  intros Hin. destruct fuel as [|fuel]; [discriminate|].
  rewrite get_size_children in H.
  destruct (nth_error h obj) as [o|]; [|discriminate]. cbv zeta in H.
  rewrite (set_mem_correct2 Nat.eq_dec _ _ Hin) in H. inversion H.
  split; reflexivity.
Qed.

Lemma X16_get_size_counts_each_object_once_witness :
  exists new,
    NoDup new
    /\ (forall i, In i new -> ~ In i [0%nat])
    /\ (forall i, In i [0; 2; 3; 4]%nat <-> In i [0%nat] \/ In i new)
    /\ 331%nat = total example_heap new
    /\ (In 2%nat [0%nat] -> 331%nat = 0%nat /\ [0; 2; 3; 4]%nat = [0%nat]).
Proof.
  apply (X16_get_size_counts_each_object_once example_heap 5 2).
  reflexivity.
Defined.






End GetSize.

(** * Sets of one point *)



(** * The plain and the decorated variant on binary64 numbers *)

(** ** Signs *)

Lemma binary_round_aux_nonneg (m e : Z) (l : location) :
  Binary64.sf_nonneg (binary_round_aux prec emax false m e l).
Proof.
  unfold binary_round_aux.
  destruct (shr_fexp prec emax m e l) as [mrs' e'].
  destruct (shr_fexp prec emax _ e' loc_Exact) as [mrs'' e''].
  destruct (shr_m mrs''); [exact eq_refl | | exact I].
  destruct (Z.leb _ _); exact eq_refl.
Qed.

Lemma binary_round_nonneg (m : positive) (e : Z) :
  Binary64.sf_nonneg (binary_round prec emax false m e).
Proof.
  unfold binary_round. destruct (shl_align m e _) as [mz ez].
  apply binary_round_aux_nonneg.
Qed.

Lemma SFmul_square_nonneg (x : spec_float) :
  Binary64.sf_nonneg (SFmul prec emax x x).
Proof.
  destruct x as [s | s | | s m e]; cbn [SFmul];
    rewrite ?xorb_nilpotent; try reflexivity; try exact I.
  apply binary_round_aux_nonneg.
Qed.

Lemma SFsqrt_nonneg (x : spec_float) :
  Binary64.sf_nonneg x -> Binary64.sf_nonneg (SFsqrt prec emax x).
Proof.
  destruct x as [s | s | | s m e]; cbn [SFsqrt Binary64.sf_nonneg];
    intros H; subst; try reflexivity; try exact I.
  destruct (SFsqrt_core_binary prec emax (Z.pos m) e) as [[mz ez] lz].
  apply binary_round_aux_nonneg.
Qed.

Lemma SFadd_nonneg (x y : spec_float) :
  Binary64.sf_nonneg x -> Binary64.sf_nonneg y ->
  Binary64.sf_nonneg (SFadd prec emax x y).
Proof.
  destruct x as [sx | sx | | sx mx ex], y as [sy | sy | | sy my ey];
    cbn [Binary64.sf_nonneg]; intros Hx Hy; subst;
    try reflexivity; try exact I.
  unfold SFadd. cbn [cond_Zopp]. cbv zeta.
  destruct (shl_align mx ex (Z.min ex ey)) as [mx' ex'].
  destruct (shl_align my ey (Z.min ex ey)) as [my' ey'].
  cbn [fst Z.add binary_normalize]. apply binary_round_nonneg.
Qed.

Lemma SFadd_zero_left (y : spec_float) :
  Binary64.sf_nonneg y -> SFadd prec emax (S754_zero false) y = y.
Proof.
  destruct y as [sy | sy | | sy my ey]; cbn [Binary64.sf_nonneg];
    intros Hy; subst; reflexivity.
Qed.

Lemma nonneg_zero : Binary64.nonneg 0%float.
Proof. reflexivity. Qed.

Lemma nonneg_add (a b : float) :
  Binary64.nonneg a -> Binary64.nonneg b -> Binary64.nonneg (a + b)%float.
Proof.
  unfold Binary64.nonneg. rewrite FloatAxioms.add_spec. apply SFadd_nonneg.
Qed.

Lemma nonneg_sqrt_square (d : float) :
  Binary64.nonneg (PrimFloat.sqrt (d * d))%float.
Proof.
  unfold Binary64.nonneg. rewrite FloatAxioms.sqrt_spec, FloatAxioms.mul_spec.
  apply SFsqrt_nonneg, SFmul_square_nonneg.
Qed.

Lemma add_zero_left (s : float) : Binary64.nonneg s -> (0 + s)%float = s.
Proof.
  intros H. apply Prim2SF_inj. rewrite FloatAxioms.add_spec.
  change (Prim2SF 0%float) with (S754_zero false).
  apply SFadd_zero_left, H.
Qed.

(** A value with a clear sign bit, or [nan], is not below [0.]. *)
Lemma nonneg_not_negative (v : float) :
  Binary64.nonneg v -> PrimFloat.ltb v 0 = false.
Proof.
  unfold Binary64.nonneg. rewrite FloatAxioms.ltb_spec.
  change (Prim2SF 0%float) with (S754_zero false). unfold SFltb.
  destruct (Prim2SF v) as [s | s | | s m e]; cbn [Binary64.sf_nonneg SFcompare];
    intros H; subst; reflexivity.
Qed.

(** ** Sums of non-negative terms *)

Lemma fold_add_nonneg (l : list float) (acc : float) :
  Binary64.nonneg acc -> Forall Binary64.nonneg l ->
  Binary64.nonneg (fold_left PrimFloat.add l acc).
Proof.
  revert acc. induction l as [|a l IH]; intros acc Hacc Hl; [exact Hacc|].
  inversion Hl; subst. cbn [fold_left]. apply IH; [|assumption].
  apply nonneg_add; assumption.
Qed.

Lemma zip_add_nonneg (r a : list float) :
  Forall Binary64.nonneg r -> Forall Binary64.nonneg a ->
  Forall Binary64.nonneg (zip_with PrimFloat.add r a).
Proof.
  revert a. induction r as [|x r IH]; intros [|y a] Hr Ha;
    cbn [zip_with]; try constructor.
  - inversion Hr; inversion Ha; subst. apply nonneg_add; assumption.
  - inversion Hr; inversion Ha; subst. apply IH; assumption.
Qed.

Lemma Forall_firstn_skipn {A : Type} (P : A -> Prop) (n : nat) (l : list A) :
  Forall P l -> Forall P (firstn n l) /\ Forall P (skipn n l).
Proof.
  intros H. rewrite <- (firstn_skipn n l) in H. apply Forall_app in H.
  exact H.
Qed.

Lemma sum_blocks_nonneg (n : nat) :
  forall a r, (length a <= n)%nat ->
    Forall Binary64.nonneg r -> Forall Binary64.nonneg a ->
    Forall Binary64.nonneg (fst (Binary64.sum_blocks r a))
    /\ Forall Binary64.nonneg (snd (Binary64.sum_blocks r a)).
Proof.
  induction n as [|n IH]; intros a r Hlen Hr Ha.
  - destruct a; [|simpl in Hlen; lia]. split; assumption.
  - destruct a as [|a0 [|a1 [|a2 [|a3 [|a4 [|a5 [|a6 [|a7 rest]]]]]]]];
      try (split; assumption).
    cbn [Binary64.sum_blocks].
    pose proof (Forall_firstn_skipn _ 8 _ Ha) as [H8 Hrest].
    cbn [firstn skipn] in H8, Hrest.
    apply IH; [simpl in Hlen; lia | | exact Hrest].
    apply zip_add_nonneg; assumption.
Qed.

Lemma tree8_nonneg (r : list float) :
  Forall Binary64.nonneg r -> Binary64.nonneg (Binary64.tree8 r).
Proof.
  intros H.
  destruct r as [|r0 [|r1 [|r2 [|r3 [|r4 [|r5 [|r6 [|r7 [|r8 r]]]]]]]]];
    try exact nonneg_zero.
  cbn [Binary64.tree8].
  repeat match goal with
         | H : Forall _ (_ :: _) |- _ => inversion H; subst; clear H
         end.
  repeat apply nonneg_add; assumption.
Qed.

Lemma sum_unrolled_nonneg (a : list float) :
  Forall Binary64.nonneg a -> Binary64.nonneg (Binary64.sum_unrolled a).
Proof.
  intros Ha. unfold Binary64.sum_unrolled.
  destruct (Forall_firstn_skipn _ 8 _ Ha) as [H8 Hrest].
  destruct (sum_blocks_nonneg (length (skipn 8 a)) (skipn 8 a) (firstn 8 a)
              (Nat.le_refl _) H8 Hrest) as [Hr Hs].
  destruct (Binary64.sum_blocks (firstn 8 a) (skipn 8 a)) as [r rest].
  cbn [fst snd] in Hr, Hs.
  apply fold_add_nonneg; [apply tree8_nonneg, Hr | exact Hs].
Qed.

Lemma pairwise_sum_nonneg (fuel : nat) :
  forall a, Forall Binary64.nonneg a ->
            Binary64.nonneg (Binary64.pairwise_sum fuel a).
Proof.
  induction fuel as [|fuel IH]; intros a Ha; cbn [Binary64.pairwise_sum];
    cbv zeta;
    (destruct (Nat.ltb (length a) 8);
     [apply fold_add_nonneg; [exact nonneg_zero | exact Ha]|]);
    (destruct (Nat.leb (length a) 128); [apply sum_unrolled_nonneg, Ha|]).
  - apply sum_unrolled_nonneg, Ha.
  - destruct (Forall_firstn_skipn _
                (length a / 2 - (length a / 2) mod 8) _ Ha) as [H1 H2].
    apply nonneg_add; apply IH; assumption.
Qed.

Lemma sqrt_squares_nonneg (d : list float) :
  Forall Binary64.nonneg (Binary64.np_sqrt (zip_with PrimFloat.mul d d)).
Proof.
  unfold Binary64.np_sqrt. induction d as [|a d IH]; cbn [zip_with map];
    constructor; [apply nonneg_sqrt_square | exact IH].
Qed.

Lemma zip_with_length_gen {T : Type} (f : T -> T -> T) (x y : list T) :
  length x = length y -> length (zip_with f x y) = length x.
Proof.
  revert y. induction x as [|a x IH]; intros [|b y] H; simpl in *; try easy.
  f_equal. apply IH. lia.
Qed.

Lemma broadcast_same_gen {T : Type} (f : T -> T -> T) (x y : list T) :
  length x = length y -> broadcast f x y = Ok (zip_with f x y).
Proof. intros H. unfold broadcast. rewrite H, Nat.eqb_refl. reflexivity. Qed.

Lemma binary64_np_imul_self (d : list float) :
  Binary64.np_imul d d = Ok (zip_with PrimFloat.mul d d).
Proof.
  unfold Binary64.np_imul. rewrite broadcast_same_gen by reflexivity.
  cbn [bind]. rewrite zip_with_length_gen by reflexivity.
  now rewrite Nat.eqb_refl.
Qed.

(** ** The metric *)

Lemma binary64_metric_python_nonneg (x y : list float) (v : float) :
  Binary64.metric_python x y = Ok v -> Binary64.nonneg v.
Proof.
  unfold Binary64.metric_python, Binary64.np_subtract. intros H.
  destruct (broadcast PrimFloat.sub x y) as [d|e]; [|discriminate].
  cbn [bind] in H. rewrite binary64_np_imul_self in H. cbn [bind] in H.
  inversion H; subst v. unfold Binary64.np_sum.
  apply nonneg_add; [exact nonneg_zero|].
  apply pairwise_sum_nonneg, sqrt_squares_nonneg.
Qed.

Lemma binary64_metric_numba_nonneg (x y : list float) (v : float) :
  Binary64.metric_numba x y = Ok v -> Binary64.nonneg v.
Proof.
  unfold Binary64.metric_numba, Binary64.np_subtract. intros H.
  destruct (broadcast PrimFloat.sub x y) as [d|e]; [|discriminate].
  cbn [bind] in H. rewrite binary64_np_imul_self in H. cbn [bind] in H.
  inversion H; subst v. unfold Binary64.numba_sum.
  apply fold_add_nonneg; [exact nonneg_zero | apply sqrt_squares_nonneg].
Qed.

Lemma pairwise_sum_short (fuel : nat) (a : list float) :
  (length a < 8)%nat ->
  Binary64.pairwise_sum fuel a = fold_left PrimFloat.add a 0%float.
Proof.
  intros H. apply Nat.ltb_lt in H.
  destruct fuel; cbn [Binary64.pairwise_sum]; cbv zeta; now rewrite H.
Qed.

(** Below 8 coordinates NumPy's sum and numba's sum of the square roots
    are the same number. *)
Lemma binary64_sums_agree (d : list float) :
  (length d < 8)%nat ->
  Binary64.np_sum (Binary64.np_sqrt (zip_with PrimFloat.mul d d))
  = Binary64.numba_sum (Binary64.np_sqrt (zip_with PrimFloat.mul d d)).
Proof.
  intros H. unfold Binary64.np_sum, Binary64.numba_sum.
  rewrite pairwise_sum_short.
  - apply add_zero_left, fold_add_nonneg;
      [exact nonneg_zero | apply sqrt_squares_nonneg].
  - unfold Binary64.np_sqrt.
    now rewrite length_map, zip_with_length_gen by reflexivity.
Qed.

Lemma binary64_metric_agree (x y : list float) :
  length x = length y -> (length x < 8)%nat ->
  exists v, Binary64.metric_python x y = Ok v
            /\ Binary64.metric_numba x y = Ok v.
Proof.
  intros Hxy H8.
  unfold Binary64.metric_python, Binary64.metric_numba, Binary64.np_subtract.
  rewrite (broadcast_same_gen _ _ _ Hxy). cbn [bind].
  rewrite binary64_np_imul_self. cbn [bind].
  rewrite binary64_sums_agree
    by (now rewrite zip_with_length_gen by exact Hxy).
  eexists. split; reflexivity.
Qed.

(** ** The loops *)

Lemma foldM_agree {A S : Type} (f g : A -> S -> result S) (l : list A) :
  (forall a s, In a l -> exists s', f a s = Ok s' /\ g a s = Ok s') ->
  forall s, exists s', foldM f l s = Ok s' /\ foldM g l s = Ok s'.
Proof.
  induction l as [|a l IH]; intros H s.
  - exists s. split; reflexivity.
  - cbn [foldM]. destruct (H a s (or_introl eq_refl)) as (s1 & -> & ->).
    cbn [bind]. apply IH. intros b t Hb. apply H. now right.
Qed.

Lemma binary64_inf_dist_agree (d : nat) (x : list float)
  (Y : list (list float)) :
  (d < 8)%nat -> length x = d -> Binary64.matrix d Y ->
  exists r, Binary64.inf_dist_python x Y = Ok r
            /\ Binary64.inf_dist_numba x Y = Ok r.
Proof.
  intros H8 Hx HY.
  unfold Binary64.inf_dist_python, Binary64.inf_dist_numba. cbv zeta.
  rewrite (for_each_range
             (fun Yi inf =>
                dist <- Binary64.metric_python x Yi ;;
                if Binary64.xlt dist inf then Ok dist else Ok inf)
             Y PrimFloat.infinity).
  rewrite (for_each_range
             (fun Yi inf =>
                dist <- Binary64.metric_numba x Yi ;;
                if Binary64.xlt dist inf then Ok dist else Ok inf)
             Y PrimFloat.infinity).
  apply foldM_agree. intros q s Hq.
  unfold Binary64.matrix in HY. rewrite Forall_forall in HY.
  destruct (binary64_metric_agree x q) as (v & -> & ->);
    [rewrite (HY q Hq); exact Hx | lia|].
  cbn [bind]. destruct (Binary64.xlt v s); eexists; split; reflexivity.
Qed.

Lemma binary64_sup_loop_agree (d : nat) (X Y : list (list float)) :
  (d < 8)%nat -> Binary64.matrix d X -> Binary64.matrix d Y ->
  exists r,
    binary64_sup_loop X Y = Ok r
    /\ for_each (range (length X))
         (fun i sup1 =>
            Xi <- getitem X i ;;
            inf1 <- Binary64.inf_dist_numba Xi Y ;;
            if Binary64.xgt inf1 sup1 then Ok inf1 else Ok sup1)
         (-1)%float = Ok r.
Proof.
  intros H8 HX HY. unfold binary64_sup_loop.
  rewrite (for_each_range
             (fun Xi sup1 =>
                inf1 <- Binary64.inf_dist_python Xi Y ;;
                if Binary64.xgt inf1 sup1 then Ok inf1 else Ok sup1)
             X (-1)%float).
  rewrite (for_each_range
             (fun Xi sup1 =>
                inf1 <- Binary64.inf_dist_numba Xi Y ;;
                if Binary64.xgt inf1 sup1 then Ok inf1 else Ok sup1)
             X (-1)%float).
  apply foldM_agree. intros p s Hp.
  unfold Binary64.matrix in HX. rewrite Forall_forall in HX.
  destruct (binary64_inf_dist_agree d p Y H8 (HX p Hp) HY) as (r & -> & ->).
  cbn [bind]. destruct (Binary64.xgt r s); eexists; split; reflexivity.
Qed.

(** C7, as stated, fails on float64: on two points of 9 coordinates NumPy's
    pairwise sum and numba's sequential sum round differently, and the two
    variants return values that are not equal. *)
Lemma C7_variants_differ_at_9_coordinates :
  Binary64.hausdorff_python [[1e16; 1; 1; 1; 1; 1; 1; 1; 1]%float]
                            [[0; 0; 0; 0; 0; 0; 0; 0; 0]%float]
  = Ok 10000000000000008%float
  /\ Binary64.hausdorff_numba [[1e16; 1; 1; 1; 1; 1; 1; 1; 1]%float]
                              [[0; 0; 0; 0; 0; 0; 0; 0; 0]%float]
     = Ok 10000000000000000%float
  /\ PrimFloat.eqb 10000000000000008 10000000000000000 = false.
Proof. vm_compute. repeat split; reflexivity. Qed.

(** C7, amended.  On non-empty float64 point sets of one dimension below 8
    the plain variant and the decorated variant return the same number
    (and it equals itself under [==]: it is not [nan]).  From 8
    coordinates on NumPy sums pairwise and numba sums in sequence, and the
    two can round differently. *)
Theorem C7_variants_agree_below_8_coordinates
  (d : nat) (X Y : list (list float)) :
  X <> [] -> Y <> [] -> (d < 8)%nat ->
  Binary64.matrix d X -> Binary64.matrix d Y ->
  exists a,
    Binary64.hausdorff_python X Y = Ok a
    /\ Binary64.hausdorff_numba X Y = Ok a
    /\ PrimFloat.eqb a a = true.
Proof.
  intros _ _ H8 HX HY.
  destruct (binary64_sup_loop_agree d X Y H8 HX HY) as (s1 & E1 & E1').
  destruct (binary64_sup_loop_agree d Y X H8 HY HX) as (s2 & E2 & E2').
  exists (Binary64.py_max s1 s2).
  split; [|split].
  - rewrite binary64_hausdorff_loops, E1, E2. reflexivity.
  - unfold Binary64.hausdorff_numba. cbv zeta. rewrite E1'. cbn [bind].
    rewrite E2'. reflexivity.
  - apply binary64_sup_loop_number in E1. apply binary64_sup_loop_number in E2.
    unfold Binary64.py_max. destruct (Binary64.xgt s2 s1); assumption.
Qed.

Lemma C7_variants_agree_below_8_coordinates_witness :
  exists a,
    Binary64.hausdorff_python [[0; 0; 0]; [10; 10; 10]]%float [[0; 0; 0]]%float
    = Ok a
    /\ Binary64.hausdorff_numba [[0; 0; 0]; [10; 10; 10]]%float
         [[0; 0; 0]]%float = Ok a
    /\ PrimFloat.eqb a a = true.
Proof.
  apply (C7_variants_agree_below_8_coordinates 3);
    try discriminate; try lia; repeat constructor.
Defined.

(** X3.  On binary64 numbers the metric never returns a negative number,
    whatever the coordinates are: the value compared with [< 0] is false
    (it may be [0.], [inf] or [nan]); the same holds for the decorated
    variant. *)
Theorem X3_binary64_metric_never_negative (x y : list float) (v w : float) :
  Binary64.metric_python x y = Ok v -> Binary64.metric_numba x y = Ok w ->
  PrimFloat.ltb v 0 = false /\ PrimFloat.ltb w 0 = false.
Proof.
  intros Hv Hw. split; apply nonneg_not_negative.
  - apply (binary64_metric_python_nonneg x y v Hv).
  - apply (binary64_metric_numba_nonneg x y w Hw).
Qed.

Lemma X3_binary64_metric_never_negative_witness :
  PrimFloat.ltb 10000000000000008 0 = false
  /\ PrimFloat.ltb 10000000000000000 0 = false.
Proof.
  apply (X3_binary64_metric_never_negative
           [1e16; -1; 1; -1; 1; 1; 1; 1; 1]%float
           [0; 0; 0; 0; 0; 0; 0; 0; 0]%float);
    vm_compute; reflexivity.
Defined.
